(** * InstantTexture: vertex colours baked into a UV texture

    A shallow embedding of [src/instant_texture/utils.py] and
    [src/instant_texture/converter.py], and the properties of the baking
    pipeline proved on it.

    Numbers.  A float is modelled by the rational it denotes.  [Utils] is
    the geometry of [utils.py] in exact arithmetic: what the two helpers
    compute when no operation rounds.  [Float64] is the same code with every
    float64 operation rounded to nearest, ties to even, and [Float32] the
    float32 product of the UV scaling; the converter is built on these two.
    Values beyond the finite range of a format are not modelled; a division
    by zero is [None]. *)

From Stdlib Require Import ZArith QArith Qminmax Qabs Qround Lqa Lia.
From Stdlib Require Import String Ascii.
From stdpp Require Import base option list list_numbers strings.

Local Open Scope Z_scope.
Local Open Scope Q_scope.

(** ** IEEE 754 rounding *)

Module Ieee.

(** [2^e <= n / d]. *)
Definition ge_pow2 (n : Z) (d : positive) (e : Z) : bool :=
  if (0 <=? e)%Z then (Z.pos d * 2 ^ e <=? n)%Z
  else (Z.pos d <=? n * 2 ^ (- e))%Z.

(** The integer part of the binary logarithm of [n / d], for [n > 0]. *)
Definition ilog2 (n : Z) (d : positive) : Z :=
  let e := (Z.log2 n - Z.log2 (Z.pos d))%Z in
  if ge_pow2 n d e then e else (e - 1)%Z.

(** The integer nearest to [N / D], the even one of two at equal distance,
    for [0 <= N] and [0 < D]. *)
Definition round_half_even (N D : Z) : Z :=
  let k := (N / D)%Z in
  let r := (N mod D)%Z in
  match (2 * r ?= D)%Z with
  | Lt => k
  | Gt => (k + 1)%Z
  | Eq => if Z.even k then k else (k + 1)%Z
  end.

Definition round_pos (prec emin : Z) (n : Z) (d : positive) : Q :=
  let ex := Z.max (ilog2 n d - (prec - 1)) emin in
  if (0 <=? ex)%Z
  then inject_Z (round_half_even n (Z.pos d * 2 ^ ex) * 2 ^ ex)
  else Qmake (round_half_even (n * 2 ^ (- ex)) (Z.pos d))
             (Z.to_pos (2 ^ (- ex))).

(** [q] rounded to the nearest value of the binary format with [prec]
    significant bits and least positive value [2^emin] (subnormals
    included), ties to even. *)
Definition round (prec emin : Z) (q : Q) : Q :=
  let q := Qred q in
  match Qnum q with
  | Z0 => 0
  | Zpos n => round_pos prec emin (Zpos n) (Qden q)
  | Zneg n => - round_pos prec emin (Zpos n) (Qden q)
  end.

End Ieee.

(** ** numpy element types *)

(** What the helpers need from the element type of a colour array: the
    array's own [+] and the promotion to float64 done by [/] and by a
    product with a float. *)
Class Dtype (C : Type) := {
  dt_add : C -> C -> C;
  dt_float : C -> Q
}.

(** [np.uint8]: an integer in [0, 256), addition wraps around. *)
Abbreviation uint8 := Z (only parsing).

Definition wrap8 (z : Z) : uint8 := (z mod 256)%Z.

Definition is_uint8 (z : uint8) : Prop := (0 <= z < 256)%Z.

#[export] Instance uint8_dtype : Dtype uint8 := {|
  dt_add := fun a b => wrap8 (a + b);
  dt_float := inject_Z
|}.

(** [np.float64], idealised as a rational. *)
Abbreviation float64 := Q (only parsing).

#[export] Instance float64_dtype : Dtype float64 := {|
  dt_add := Qplus;
  dt_float := fun q => q
|}.

(** A colour: an array of four channels. *)
Record rgba (A : Type) := RGBA { chR : A; chG : A; chB : A; chA : A }.
Arguments RGBA {A} _ _ _ _.
Arguments chR {A} _.
Arguments chG {A} _.
Arguments chB {A} _.
Arguments chA {A} _.

Definition rgba_map {A B} (f : A -> B) (c : rgba A) : rgba B :=
  RGBA (f (chR c)) (f (chG c)) (f (chB c)) (f (chA c)).

Definition rgba_zip {A B C} (f : A -> B -> C) (c : rgba A) (d : rgba B)
  : rgba C :=
  RGBA (f (chR c) (chR d)) (f (chG c) (chG d))
       (f (chB c) (chB d)) (f (chA c) (chA d)).

Definition rgba_zip3 {A B C D} (f : A -> B -> C -> D) (c : rgba A)
    (d : rgba B) (e : rgba C) : rgba D :=
  RGBA (f (chR c) (chR d) (chR e)) (f (chG c) (chG d) (chG e))
       (f (chB c) (chB d) (chB e)) (f (chA c) (chA d) (chA e)).

(** Channelwise [==] on float colours. *)
Definition rgba_eq (c d : rgba Q) : Prop :=
  chR c == chR d /\ chG c == chG d /\ chB c == chB d /\ chA c == chA d.

(** An RGBA colour of [np.uint8] channels. *)
Definition rgb8 (r g b a : Z) : rgba uint8 := RGBA r g b a.
Arguments rgb8 (r g b a)%_Z.

Definition rgba_all {A} (P : A -> Prop) (c : rgba A) : Prop :=
  P (chR c) /\ P (chG c) /\ P (chB c) /\ P (chA c).

(** ** utils.py *)

Module Utils.

Definition point := (Q * Q)%type.

Definition Qltb (x y : Q) : bool := negb (Qle_bool y x).

(** [a - b] on two-element arrays. *)
Definition sub (a b : point) : point := (a.1 - b.1, a.2 - b.2).

(** [np.dot] on two-element arrays. *)
Definition dot (a b : point) : Q := a.1 * b.1 + a.2 * b.2.

(** [np.clip(x, lo, hi)], that is [minimum(hi, maximum(x, lo))]. *)
Definition clip (x lo hi : Q) : Q := Qmin hi (Qmax x lo).

(** Float division; [None] when the quotient is not a finite number. *)
Definition fdiv (a b : Q) : option Q :=
  if Qeq_bool b 0 then None else Some (a / b).

(** The literal [1e-8]. *)
Definition eps : Q := 1 # 100000000.

(** [c0 + c1 + c2] in the arrays' own element type. *)
Definition add3 `{Dtype C} (c0 c1 c2 : rgba C) : rgba C :=
  rgba_zip dt_add (rgba_zip dt_add c0 c1) c2.

(** [u * c0 + v * c1 + w * c2]: each product promotes to float64. *)
Definition weighted `{Dtype C} (u v w : Q) (c0 c1 c2 : rgba C) : rgba Q :=
  rgba_zip Qplus
    (rgba_zip Qplus (rgba_map (fun c => u * dt_float c) c0)
                    (rgba_map (fun c => v * dt_float c) c1))
    (rgba_map (fun c => w * dt_float c) c2).

(** The value of [denom] (line 13) for a triangle. *)
Definition denom_of (v0 v1 v2 : point) : Q :=
  let v0v1 := sub v1 v0 in
  let v0v2 := sub v2 v0 in
  dot v0v1 v0v1 * dot v0v2 v0v2 - dot v0v1 v0v2 * dot v0v1 v0v2.

Definition barycentric_interpolate `{Dtype C}
    (v0 v1 v2 : point) (c0 c1 c2 : rgba C) (p : point) : option (rgba Q) :=
  let v0v1 := sub v1 v0 in
  let v0v2 := sub v2 v0 in
  let v0p := sub p v0 in
  let d00 := dot v0v1 v0v1 in
  let d01 := dot v0v1 v0v2 in
  let d11 := dot v0v2 v0v2 in
  let d20 := dot v0p v0v1 in
  let d21 := dot v0p v0v2 in
  let denom := d00 * d11 - d01 * d01 in
  if Qltb (Qabs denom) eps then
    Some (rgba_map (fun s => dt_float s / 3) (add3 c0 c1 c2))
  else
    v ← fdiv (d11 * d20 - d01 * d21) denom;
    w ← fdiv (d00 * d21 - d01 * d20) denom;
    let u := 1 - v - w in
    let u := clip u 0 1 in
    let v := clip v 0 1 in
    let w := clip w 0 1 in
    let interpolate_color := weighted u v w c0 c1 c2 in
    Some (rgba_map (fun x => clip x 0 255) interpolate_color).

Definition sign (p1 p2 p3 : point) : Q :=
  (p1.1 - p3.1) * (p2.2 - p3.2) - (p2.1 - p3.1) * (p1.2 - p3.2).

Definition is_point_in_triangle (p v0 v1 v2 : point) : bool :=
  let d1 := sign p v0 v1 in
  let d2 := sign p v1 v2 in
  let d3 := sign p v2 v0 in
  let has_neg := Qltb d1 0 || Qltb d2 0 || Qltb d3 0 in
  let has_pos := Qltb 0 d1 || Qltb 0 d2 || Qltb 0 d3 in
  negb (has_neg && has_pos).

End Utils.

(** ** float32: the arithmetic of the UV arrays *)

Module Float32.

Definition round (q : Q) : Q := Ieee.round 24 (-149) q.

Definition of_int (z : Z) : Q := round (inject_Z z).

Definition mul (a b : Q) : Q := round (a * b).

End Float32.

(** ** utils.py in float64

    [barycentric_interpolate] is taken at the element types of its call
    site: [convert] passes [int64] vertex arrays (after [astype(int)]), a
    float64 point and [uint8] colours.  Integer arithmetic stays in [Z];
    every float64 operation rounds.  [is_point_in_triangle] is taken on
    float64 coordinates. *)

Module Float64.
Import Utils.

Definition round (q : Q) : Q := Ieee.round 53 (-1074) q.

Definition of_int (z : Z) : Q := round (inject_Z z).

Definition add (a b : Q) : Q := round (a + b).

Definition sub (a b : Q) : Q := round (a - b).

Definition mul (a b : Q) : Q := round (a * b).

Definition div (a b : Q) : Q := round (a / b).

(** The literal [1e-8]. *)
Definition eps : Q := round (1 # 100000000).

(** [np.dot] of two [int64] pairs. *)
Definition dot_int (a b : Z * Z) : Z := (a.1 * b.1 + a.2 * b.2)%Z.

(** [np.dot] of a float64 pair and an [int64] pair. *)
Definition dot (a : point) (b : Z * Z) : Q :=
  add (mul a.1 (of_int b.1)) (mul a.2 (of_int b.2)).

(** A float divided by an [int64]; [None] when the quotient is not a finite
    number. *)
Definition fdiv (a : Q) (d : Z) : option Q :=
  if (d =? 0)%Z then None else Some (div a (of_int d)).

(** [u * c0 + v * c1 + w * c2] on one channel. *)
Definition mix (u v w : Q) (a b c : Z) : Q :=
  add (add (mul u (inject_Z a)) (mul v (inject_Z b))) (mul w (inject_Z c)).

Definition barycentric_interpolate (v0 v1 v2 : Z * Z) (c0 c1 c2 : rgba Z)
    (p : point) : option (rgba Q) :=
  let v0v1 := (v1.1 - v0.1, v1.2 - v0.2)%Z in
  let v0v2 := (v2.1 - v0.1, v2.2 - v0.2)%Z in
  let v0p := (sub p.1 (of_int v0.1), sub p.2 (of_int v0.2)) in
  let d00 := dot_int v0v1 v0v1 in
  let d01 := dot_int v0v1 v0v2 in
  let d11 := dot_int v0v2 v0v2 in
  let d20 := dot v0p v0v1 in
  let d21 := dot v0p v0v2 in
  let denom := (d00 * d11 - d01 * d01)%Z in
  if Qltb (Qabs (inject_Z denom)) eps then
    Some (rgba_map (fun s => div (inject_Z s) 3) (add3 c0 c1 c2))
  else
    v ← fdiv (sub (mul (of_int d11) d20) (mul (of_int d01) d21)) denom;
    w ← fdiv (sub (mul (of_int d00) d21) (mul (of_int d01) d20)) denom;
    let u := sub (sub 1 v) w in
    let u := clip u 0 1 in
    let v := clip v 0 1 in
    let w := clip w 0 1 in
    let interpolate_color := rgba_zip3 (mix u v w) c0 c1 c2 in
    Some (rgba_map (fun x => clip x 0 255) interpolate_color).

Definition sign (p1 p2 p3 : point) : Q :=
  sub (mul (sub p1.1 p3.1) (sub p2.2 p3.2))
      (mul (sub p2.1 p3.1) (sub p1.2 p3.2)).

Definition is_point_in_triangle (p v0 v1 v2 : point) : bool :=
  let d1 := sign p v0 v1 in
  let d2 := sign p v1 v2 in
  let d3 := sign p v2 v0 in
  let has_neg := Qltb d1 0 || Qltb d2 0 || Qltb d3 0 in
  let has_pos := Qltb 0 d1 || Qltb 0 d2 || Qltb 0 d3 in
  negb (has_neg && has_pos).

End Float64.

(** ** The geometry as the specification words it *)

Module Spec.
Import Utils.

(** Barycentric weights [(u, v, w)] of [p] by the dot-product formulation,
    with [u = 1 - v - w]. *)
Definition weights (v0 v1 v2 p : point) : Q * Q * Q :=
  let e1 := sub v1 v0 in
  let e2 := sub v2 v0 in
  let r := sub p v0 in
  let denom := dot e1 e1 * dot e2 e2 - dot e1 e2 * dot e1 e2 in
  let v := (dot e2 e2 * dot r e1 - dot e1 e2 * dot r e2) / denom in
  let w := (dot e1 e1 * dot r e2 - dot e1 e2 * dot r e1) / denom in
  (1 - v - w, v, w).

Definition clamp01 (x : Q) : Q := clip x 0 1.

Definition clamp255 (x : Q) : Q := clip x 0 255.

(** Each weight clamped on its own, the weighted sum of the colours, the
    sum clamped channel by channel; nothing is renormalised in between. *)
Definition interpolate `{Dtype C} (v0 v1 v2 : point) (c0 c1 c2 : rgba C)
    (p : point) : rgba Q :=
  let '(u, v, w) := weights v0 v1 v2 p in
  rgba_map clamp255
    (weighted (clamp01 u) (clamp01 v) (clamp01 w) c0 c1 c2).

(** The unweighted average of three colours, channel by channel. *)
Definition average `{Dtype C} (c0 c1 c2 : rgba C) : rgba Q :=
  rgba_zip (fun a b => a + b)
    (rgba_zip (fun a b => a + b)
       (rgba_map (fun c => dt_float c / 3) c0)
       (rgba_map (fun c => dt_float c / 3) c1))
    (rgba_map (fun c => dt_float c / 3) c2).



End Spec.

(** ** The Python runtime the converter relies on *)

Module Py.

Inductive exn :=
  | TypeError (msg : string)
  | ValueError (msg : string)
  | IndexError (msg : string)
  | OSError (msg : string)
  | MemoryError (msg : string).

(** A computation that returns or raises. *)
Definition res (A : Type) : Type := exn + A.

#[export] Instance res_ret : MRet res := fun A x => inr x.

#[export] Instance res_bind : MBind res := fun A B f m =>
  match m with
  | inl e => inl e
  | inr x => f x
  end.

Definition raise {A} (e : exn) : res A := inl e.

(** [for x in l: s = body(x, s)], stopping at the first exception. *)
Fixpoint for_ {A S} (l : list A) (body : A -> S -> res S) (s : S) : res S :=
  match l with
  | [] => mret s
  | x :: l' => s' ← body x s; for_ l' body s'
  end.

(** [range(lo, hi)]. *)
Definition range (lo hi : Z) : list Z := seqZ lo (hi - lo).

(** Indexing of a sequence of length [n] by [i]: a negative index counts
    from the end, an index outside [-n, n) raises [IndexError]. *)
Definition norm_index (n : nat) (i : Z) : res nat :=
  if ((0 <=? i) && (i <? Z.of_nat n))%Z then mret (Z.to_nat i)
  else if ((- Z.of_nat n <=? i) && (i <? 0))%Z
       then mret (Z.to_nat (Z.of_nat n + i))
       else raise (IndexError "index out of bounds").

(** [a[i]] for an unsigned index. *)
Definition getitem {A} (a : list A) (i : nat) : res A :=
  match a !! i with
  | Some x => mret x
  | None => raise (IndexError "index out of bounds")
  end.

(** [a[idx]] for an array of indices. *)
Fixpoint take {A} (a : list A) (idx : list nat) : res (list A) :=
  match idx with
  | [] => mret []
  | i :: idx' => x ← getitem a i; xs ← take a idx'; mret (x :: xs)
  end.

(** [float.astype(int)] and [int(float)]: truncation towards zero. *)
Definition trunc (q : Q) : Z := Z.quot (Qnum q) (Zpos (Qden q)).

(** *** warnings *)

Inductive warning_class := UserWarning | RuntimeWarning | DeprecationWarning.

Record warning := Warning {
  w_category : warning_class;
  w_message : string
}.

(** What a caller may pass as the [category] argument of [warnings.warn]. *)
Inductive category_arg :=
  | CatNone
  | CatClass (c : warning_class)
  | CatStr (s : string).

(** [warnings.warn(message, category)] under the default filter.  A
    [category] that is not a [Warning] subclass is rejected with
    [TypeError] before anything is issued. *)
Definition warn (message : string) (category : category_arg)
    (log : list warning) : res (list warning) :=
  match category with
  | CatNone => mret (log ++ [Warning UserWarning message])
  | CatClass c => mret (log ++ [Warning c message])
  | CatStr _ =>
      raise (TypeError "category must be a Warning subclass, not 'str'")
  end.

(** *** str *)

Definition ascii_lower (c : ascii) : ascii :=
  let n := nat_of_ascii c in
  if ((65 <=? n) && (n <=? 90))%nat then ascii_of_nat (n + 32) else c.

(** [str.lower] on ASCII text. *)
Fixpoint lower (s : string) : string :=
  match s with
  | EmptyString => EmptyString
  | String c s' => String (ascii_lower c) (lower s')
  end.

(** [s.rfind(c)]: the index of the last [c], if any. *)
Fixpoint rfind (c : ascii) (s : string) : option nat :=
  match s with
  | EmptyString => None
  | String a s' =>
      match rfind c s' with
      | Some i => Some (S i)
      | None => if Ascii.eqb a c then Some O else None
      end
  end.

(** [s[i:]] and [s[:i]]. *)
Definition drop_str (i : nat) (s : string) : string :=
  substring i (String.length s - i) s.

Definition take_str (i : nat) (s : string) : string := substring 0 i s.

(** [s.split(sep)]. *)
Fixpoint split (sep : ascii) (s : string) : list string :=
  match s with
  | EmptyString => [EmptyString]
  | String c s' =>
      if Ascii.eqb c sep then EmptyString :: split sep s'
      else match split sep s' with
           | w :: ws => String c w :: ws
           | [] => [String c EmptyString]
           end
  end.

(** [sep.join(l)]. *)
Fixpoint join (sep : string) (l : list string) : string :=
  match l with
  | [] => ""
  | x :: l' =>
      match l' with
      | [] => x
      | _ :: _ => (x ++ sep ++ join sep l')%string
      end
  end.

(** *** pathlib (POSIX flavour)

    A path is its root and the list of its components.  Parsing a string
    drops the empty components (doubled or trailing separators) and the
    [.] components, as [PurePosixPath] does. *)

Record PurePath := MkPath { root : string; _tail : list string }.

(** [posixpath.splitroot]: the root is ["/"], or ["//"] for exactly two
    leading separators. *)
Definition splitroot (s : string) : string :=
  match s with
  | String "/" (String "/" (String "/" _)) => "/"
  | String "/" (String "/" _) => "//"
  | String "/" _ => "/"
  | _ => ""
  end.

Definition Path (s : string) : PurePath :=
  MkPath (splitroot s)
    (List.filter (fun x => negb (String.eqb x "" || String.eqb x "."))
       (split "/" s)).

(** [path.name]: the final component, if any. *)
Definition name (p : PurePath) : string := default "" (last (_tail p)).

(** [str(path)]. *)
Definition str (p : PurePath) : string :=
  match root p, _tail p with
  | EmptyString, [] => "."
  | r, t => (r ++ join "/" t)%string
  end.

(** [path.suffix]: the final component from its last dot on, unless that
    dot is its first or its last character. *)
Definition suffix (p : PurePath) : string :=
  match rfind "." (name p) with
  | Some i =>
      if ((0 <? i) && (i <? String.length (name p) - 1))%nat
      then drop_str i (name p) else ""
  | None => ""
  end.

(** [path.with_suffix(sfx)] for a well-formed [sfx] such as [".glb"]. *)
Definition with_suffix (p : PurePath) (sfx : string) : res PurePath :=
  if String.eqb (name p) "" then
    raise (ValueError (str p ++ " has an empty name"))
  else
    let old_suffix := suffix p in
    let stem :=
      take_str (String.length (name p) - String.length old_suffix) (name p) in
    mret (MkPath (root p) (removelast (_tail p) ++ [(stem ++ sfx)%string])).

End Py.

(** ** converter.py *)

Module Conv.
Import Utils Py.

(** A texel: four [uint8] channels.  An image is a list of rows. *)
Abbreviation texel := (rgba Z) (only parsing).
Abbreviation image := (list (list (rgba Z))) (only parsing).
Abbreviation bgr := (Z * Z * Z)%type (only parsing).
Abbreviation face := (nat * nat * nat)%type (only parsing).
Abbreviation vertex := (Q * Q * Q)%type (only parsing).

(** [img[y, x]] read at an index inside the array. *)
Definition item2 {A} (img : list (list A)) (y x : nat) : option A :=
  img !! y ≫= (.!! x).

(** The array of shape [(n, n, 4)] that holds zero everywhere. *)
Definition zeros (n : Z) : image :=
  replicate (Z.to_nat n) (replicate (Z.to_nat n) (rgb8 0 0 0 0)).

(** What [trimesh.load] hands back: the attributes [convert] looks at.
    [None] stands for an attribute the object does not have. *)
Record Visual := { vertex_colors : option (list (rgba Z)) }.

Record Mesh := {
  visual : option Visual;
  vertices : list vertex;
  faces : list face
}.

(** What [mesh.export] receives. *)
Record Export := {
  ex_path : string;
  ex_vertices : list vertex;
  ex_faces : list face;
  ex_uv : list (Q * Q);
  ex_texture : image
}.

Record Converter := {
  texture_size : Z;
  upscaling : Z;
  buffer_size : Z;
  median_size : Z;
  blur_radius : Z;
  texture_buffer : image;
  texture : option image
}.

(** The parameters fixed by the constructor. *)
Definition config (c : Converter) : Z * Z * Z * Z * Z :=
  (texture_size c, upscaling c, buffer_size c, median_size c, blur_radius c).

Definition set_texture_buffer (self : Converter) (b : image) : Converter :=
  {| texture_size := texture_size self; upscaling := upscaling self;
     buffer_size := buffer_size self; median_size := median_size self;
     blur_radius := blur_radius self; texture_buffer := b;
     texture := texture self |}.

Definition set_texture (self : Converter) (t : image) : Converter :=
  {| texture_size := texture_size self; upscaling := upscaling self;
     buffer_size := buffer_size self; median_size := median_size self;
     blur_radius := blur_radius self; texture_buffer := texture_buffer self;
     texture := Some t |}.

(** The libraries the converter calls, by what they are used for.
    [allocation_error n] is the exception numpy raises when it cannot
    provide an array of shape [(n, n, 4)], and [None] when it can. *)
Class Collaborators := {
  allocation_error : Z -> option exn;
  trimesh_load : string -> res Mesh;
  xatlas_parametrize :
    list vertex -> list face -> list nat * list face * list (Q * Q);
  cv2_inpaint : list (list bgr) -> list (list Z) -> Z -> list (list bgr);
  MedianFilter : Z -> image -> image;
  GaussianBlur : Z -> image -> image;
  resize_lanczos : Z -> image -> image
}.

(** The converter object and everything a call can act on. *)
Record State := {
  self : Converter;
  warnings_log : list warning;
  exported : list Export;
  stdout : list string
}.

Definition add_warning (st : State) (w : warning) : State :=
  {| self := self st; warnings_log := warnings_log st ++ [w];
     exported := exported st; stdout := stdout st |}.

Definition with_self (st : State) (c : Converter) : State :=
  {| self := c; warnings_log := warnings_log st;
     exported := exported st; stdout := stdout st |}.

Definition M (A : Type) : Type := State -> res A * State.

#[export] Instance M_ret : MRet M := fun A x st => (inr x, st).

#[export] Instance M_bind : MBind M := fun A B f m st =>
  match m st with
  | (inl e, st') => (inl e, st')
  | (inr x, st') => f x st'
  end.

Definition lift {A} (r : res A) : M A := fun st => (r, st).

Definition get_self : M Converter := fun st => (inr (self st), st).

Definition put_self (c : Converter) : M unit := fun st =>
  (inr tt, with_self st c).

Definition warnings_warn (message : string) (category : category_arg)
  : M unit := fun st =>
  match warn message category (warnings_log st) with
  | inl e => (inl e, st)
  | inr log => (inr tt, {| self := self st; warnings_log := log;
                           exported := exported st; stdout := stdout st |})
  end.

Definition mesh_export (e : Export) : M unit := fun st =>
  (inr tt, {| self := self st; warnings_log := warnings_log st;
              exported := exported st ++ [e]; stdout := stdout st |}).

Definition print (line : string) : M unit := fun st =>
  (inr tt, {| self := self st; warnings_log := warnings_log st;
              exported := exported st; stdout := stdout st ++ [line] |}).

(** [np.zeros((n, n, 4), dtype=np.uint8)]. *)
Definition np_zeros `{Collaborators} (n : Z) : res image :=
  if (n <? 0)%Z then raise (ValueError "negative dimensions are not allowed")
  else match allocation_error n with
       | Some e => raise e
       | None => mret (zeros n)
       end.

(** The constructor returns the new object, or raises and leaves none. *)
Definition __init__ `{Collaborators} (texture_size upscale_factor
    median_filter_size blur_filter_radius : Z) : res Converter :=
  let buffer_size := (texture_size * upscale_factor)%Z in
  texture_buffer ← np_zeros buffer_size;
  mret {| texture_size := texture_size; upscaling := upscale_factor;
          buffer_size := buffer_size;
          median_size := median_filter_size;
          blur_radius := blur_filter_radius;
          texture_buffer := texture_buffer;
          texture := None |}.

Definition _validate_output_path (output_path : option string)
  : M PurePath :=
  let default_output := Path "output.glb" in
  match output_path with
  | None => mret default_output
  | Some output_path =>
      let path := Path output_path in
      if negb (String.eqb (lower (suffix path)) ".glb") then
        new_path ← lift (with_suffix path ".glb");
        _ ← warnings_warn
              ("Output file extension changed from '" ++ suffix path
                 ++ "' to '.glb'")%string
              (CatStr ("Saving as " ++ str new_path)%string);
        mret new_path
      else mret path
  end.

(** [texture_buffer[y, x] = c]. *)
Definition setitem (buf : image) (y x : Z) (c : texel) : res image :=
  i ← norm_index (length buf) y;
  row ← getitem buf i;
  j ← norm_index (length row) x;
  mret (<[i := <[j := c]> row]> buf).

(** [(uv * (buffer_size - 1)).astype(int)]: the UVs are a float32 array,
    so the integer is converted to float32 and the product is rounded to
    float32; the cast truncates towards zero. *)
Definition to_buffer_coords (buffer_size : Z) (uv : Q * Q) : Z * Z :=
  (trunc (Float32.mul uv.1 (Float32.of_int (buffer_size - 1))),
   trunc (Float32.mul uv.2 (Float32.of_int (buffer_size - 1)))).

(** An [int64] pair read as floats; the conversion is exact below [2^53],
    far above any buffer coordinate. *)
Definition as_point (v : Z * Z) : point := (inject_Z v.1, inject_Z v.2).

(** [np.clip(color, 0, 255).astype(np.uint8)]. *)
Definition to_uint8 (color : rgba Q) : texel :=
  rgba_map (fun x => trunc (clip x 0 255)) color.

(** The body of the loop over [x] (lines 81-86).  The cast of a colour
    that is not finite has no defined value and is modelled as an exception;
    the interpolation never produces one. *)
Definition texel_body (uv0 uv1 uv2 : Z * Z) (c0 c1 c2 : texel) (y x : Z)
    (buf : image) : res image :=
  let p := (inject_Z x + (1 # 2), inject_Z y + (1 # 2)) in
  if Float64.is_point_in_triangle p (as_point uv0) (as_point uv1)
       (as_point uv2) then
    match Float64.barycentric_interpolate uv0 uv1 uv2 c0 c1 c2 p with
    | Some color => setitem buf y x (to_uint8 color)
    | None => raise (ValueError "cannot convert a non-finite float")
    end
  else mret buf.

Definition bbox (buffer_size : Z) (uv0 uv1 uv2 : Z * Z) : Z * Z * Z * Z :=
  let min_x :=
    Z.max (Qfloor (inject_Z (Z.min (Z.min uv0.1 uv1.1) uv2.1))) 0 in
  let max_x :=
    Z.min (Qceiling (inject_Z (Z.max (Z.max uv0.1 uv1.1) uv2.1)))
          (buffer_size - 1) in
  let min_y :=
    Z.max (Qfloor (inject_Z (Z.min (Z.min uv0.2 uv1.2) uv2.2))) 0 in
  let max_y :=
    Z.min (Qceiling (inject_Z (Z.max (Z.max uv0.2 uv1.2) uv2.2)))
          (buffer_size - 1) in
  (min_x, max_x, min_y, max_y).

(** The two nested loops over the bounding box (lines 79-86). *)
Definition fill_box (uv0 uv1 uv2 : Z * Z) (c0 c1 c2 : texel)
    (box : Z * Z * Z * Z) (buf : image) : res image :=
  let '(min_x, max_x, min_y, max_y) := box in
  for_ (range min_y (max_y + 1))
    (fun y => for_ (range min_x (max_x + 1))
                (fun x => texel_body uv0 uv1 uv2 c0 c1 c2 y x))
    buf.

(** The body of the loop over the faces (lines 67-86). *)
Definition face_body (buffer_size : Z) (uvs : list (Q * Q))
    (vertex_colors : list texel) (f : face) (buf : image) : res image :=
  let '(i0, i1, i2) := f in
  uv0 ← getitem uvs i0; uv1 ← getitem uvs i1; uv2 ← getitem uvs i2;
  c0 ← getitem vertex_colors i0; c1 ← getitem vertex_colors i1;
  c2 ← getitem vertex_colors i2;
  let uv0 := to_buffer_coords buffer_size uv0 in
  let uv1 := to_buffer_coords buffer_size uv1 in
  let uv2 := to_buffer_coords buffer_size uv2 in
  fill_box uv0 uv1 uv2 c0 c1 c2 (bbox buffer_size uv0 uv1 uv2) buf.

(** The loop over the faces (lines 66-86).  The source updates the buffer
    in place; here the updated buffer is returned, and an exception returns
    none.  On a square buffer and faces that index the tables the loop is
    shown below not to raise. *)
Definition rasterize (buffer_size : Z) (uvs : list (Q * Q))
    (vertex_colors : list texel) (faces : list face) (buf : image)
  : res image :=
  for_ faces (face_body buffer_size uvs vertex_colors) buf.

(** [cv2.cvtColor] between four and three channels: the fourth channel is
    dropped, and added back as 255. *)
Definition cvtColor_BGRA2BGR (img : image) : list (list bgr) :=
  fmap (M := list) (fmap (M := list)
    (fun t : texel => (chR t, chG t, chB t))) img.

Definition cvtColor_BGR2BGRA (img : list (list bgr)) : image :=
  fmap (M := list) (fmap (M := list)
    (fun t : bgr => RGBA t.1.1 t.1.2 t.2 255%Z)) img.

(** [(image_bgra[:, :, 3] == 0).astype(np.uint8) * 255]. *)
Definition hole_mask (img : image) : list (list Z) :=
  fmap (M := list) (fmap (M := list)
    (fun t : texel => if (chA t =? 0)%Z then 255%Z else 0%Z)) img.

Section WithCollaborators.
Context `{Collaborators}.

(** What [cv2.inpaint] returns for the buffer of a state. *)
Definition inpainted (st : State) : list (list bgr) :=
  cv2_inpaint (cvtColor_BGRA2BGR (texture_buffer (self st)))
    (hole_mask (texture_buffer (self st))) 3.

Definition _inpaint_texture : M unit :=
  self ← get_self;
  let image_bgra := texture_buffer self in
  let mask := hole_mask image_bgra in
  let image_bgr := cvtColor_BGRA2BGR image_bgra in
  let inpainted_bgr := cv2_inpaint image_bgr mask 3 in
  let inpainted_bgra := cvtColor_BGR2BGRA inpainted_bgr in
  put_self (set_texture_buffer self (reverse inpainted_bgra)).

Definition _filter_and_resize_texture : M unit :=
  self ← get_self;
  match texture self with
  | None => lift (raise (TypeError "no attribute 'texture'"))
  | Some t =>
      let t := MedianFilter (median_size self) t in
      let t := GaussianBlur (blur_radius self) t in
      let t := resize_lanczos (texture_size self) t in
      put_self (set_texture self t)
  end.

Definition has_vertex_colors (mesh : Mesh) : option (list texel) :=
  match visual mesh with
  | None => None
  | Some v => vertex_colors v
  end.

Definition convert (input_mesh_path : string)
    (output_mesh_path : option string) : M (option string) :=
  output_mesh_path ← _validate_output_path output_mesh_path;
  mesh ← lift (trimesh_load input_mesh_path);
  match has_vertex_colors mesh with
  | None =>
      _ ← warnings_warn "Input mesh must be an obj file with vertex colors."
            CatNone;
      mret None
  | Some vertex_colors =>
      let '(vmapping, indices, uvs) :=
        xatlas_parametrize (vertices mesh) (faces mesh) in
      vertices ← lift (take (vertices mesh) vmapping);
      vertex_colors ← lift (take vertex_colors vmapping);
      self ← get_self;
      buf ← lift (rasterize (buffer_size self) uvs vertex_colors indices
                    (texture_buffer self));
      _ ← put_self (set_texture_buffer self buf);
      _ ← _inpaint_texture;
      self ← get_self;
      _ ← put_self (set_texture self (texture_buffer self));
      _ ← _filter_and_resize_texture;
      self ← get_self;
      match texture self with
      | None => lift (raise (TypeError "no attribute 'texture'"))
      | Some texture =>
          _ ← mesh_export {| ex_path := str output_mesh_path;
                             ex_vertices := vertices; ex_faces := indices;
                             ex_uv := uvs; ex_texture := texture |};
          _ ← print ("Processed mesh saved to " ++ str output_mesh_path);
          mret (Some (str output_mesh_path))
      end
  end.

End WithCollaborators.

End Conv.

(** ** The rasteriser as the specification words it *)

Module RasterSpec.
Import Utils Py Conv.

(** A buffer of [n] rows of [n] texels. *)
Definition square (n : Z) (buf : image) : Prop :=
  Z.of_nat (length buf) = n
  /\ Forall (fun row : list (rgba Z) => Z.of_nat (length row) = n) buf.

(** The texel at row [y], column [x], both inside the buffer. *)
Definition texel_at (buf : image) (y x : Z) : option (rgba Z) :=
  item2 buf (Z.to_nat y) (Z.to_nat x).

(** [floor(uv * (buffer_size - 1))] on both coordinates, the product
    being a float32. *)
Definition mapped (n : Z) (uv : Q * Q) : Z * Z :=
  (Qfloor (Float32.round (uv.1 * Float32.round (inject_Z (n - 1)))),
   Qfloor (Float32.round (uv.2 * Float32.round (inject_Z (n - 1))))).

(** The bounding box of three integer points, clamped to [0, n - 1]. *)
Definition box (n : Z) (a b c : Z * Z) : Z * Z * Z * Z :=
  (Z.max (Z.min (Z.min a.1 b.1) c.1) 0,
   Z.min (Z.max (Z.max a.1 b.1) c.1) (n - 1),
   Z.max (Z.min (Z.min a.2 b.2) c.2) 0,
   Z.min (Z.max (Z.max a.2 b.2) c.2) (n - 1)).

Definition in_box (bx : Z * Z * Z * Z) (y x : Z) : bool :=
  let '(min_x, max_x, min_y, max_y) := bx in
  ((min_y <=? y) && (y <=? max_y) && (min_x <=? x) && (x <=? max_x))%Z.

(** The centre of texel [(x, y)]. *)
Definition centre (y x : Z) : point :=
  (inject_Z x + (1 # 2), inject_Z y + (1 # 2)).

(** The colour a triangle with integer corners [a], [b], [c] gives texel
    [(y, x)] when the texel centre is inside it: the interpolated colour,
    clamped to [0, 255] and truncated. *)
Definition centre_texel (a b c : Z * Z) (c0 c1 c2 : rgba Z) (y x : Z)
  : option (rgba Z) :=
  if Float64.is_point_in_triangle (centre y x) (as_point a) (as_point b)
       (as_point c)
  then rgba_map (fun q => Qfloor (clip q 0 255))
         <$> Float64.barycentric_interpolate a b c c0 c1 c2 (centre y x)
  else None.

(** What the triangle writes at texel [(y, x)]: nothing outside the box. *)
Definition triangle_texel (a b c : Z * Z) (c0 c1 c2 : rgba Z)
    (bx : Z * Z * Z * Z) (y x : Z) : option (rgba Z) :=
  if in_box bx y x then centre_texel a b c c0 c1 c2 y x else None.


(** What face [f] writes at texel [(y, x)] for arbitrary UVs: its corners
    are the casts of the code, which truncate towards zero. *)
Definition face_write (n : Z) (uvs : list (Q * Q)) (colours : list (rgba Z))
    (f : face) (y x : Z) : option (rgba Z) :=
  let '(i0, i1, i2) := f in
  match uvs !! i0, uvs !! i1, uvs !! i2,
        colours !! i0, colours !! i1, colours !! i2 with
  | Some uv0, Some uv1, Some uv2, Some c0, Some c1, Some c2 =>
      let a := to_buffer_coords n uv0 in
      let b := to_buffer_coords n uv1 in
      let c := to_buffer_coords n uv2 in
      triangle_texel a b c c0 c1 c2 (box n a b c) y x
  | _, _, _, _, _, _ => None
  end.

(** A write replaces what was there. *)
Definition overlay (new old : option (rgba Z)) : option (rgba Z) :=
  match new with
  | Some t => Some t
  | None => old
  end.


(** Every channel of every texel is a [uint8] value. *)
Definition all_uint8 (buf : image) : Prop :=
  Forall (Forall (rgba_all is_uint8)) buf.

Definition valid_face (uvs : list (Q * Q)) (colours : list (rgba Z))
    (f : face) : Prop :=
  let '(i0, i1, i2) := f in
  (i0 < length uvs /\ i1 < length uvs /\ i2 < length uvs)%nat
  /\ (i0 < length colours /\ i1 < length colours /\ i2 < length colours)%nat.


End RasterSpec.

(** ** Stand-ins for the libraries, to run the converter on examples *)

Module Demo.
Import Py Conv.

(** The first pixel outside the mask, in row order. *)
Definition first_known (img : list (list bgr)) (mask : list (list Z))
  : option bgr :=
  head (omap (fun pm : bgr * Z => if (pm.2 =? 0)%Z then Some pm.1 else None)
          (zip (concat img) (concat mask))).

(** A hole filler: pixels outside the mask are kept, pixels inside take the
    first known colour. *)
Definition fill (img : list (list bgr)) (mask : list (list Z)) (radius : Z)
  : list (list bgr) :=
  match first_known img mask with
  | None => img
  | Some c =>
      zip_with (zip_with (fun (px : bgr) (m : Z) =>
                            if (m =? 0)%Z then px else c)) img mask
  end.

Definition triangle (c : rgba Z) (a b d : Q * Q) : Mesh :=
  {| visual := Some {| vertex_colors := Some [c; c; c] |};
     vertices := [(a.1, a.2, 0); (b.1, b.2, 0); (d.1, d.2, 0)];
     faces := [(0, 1, 2)%nat] |}.

(** [red.obj]: a red triangle over half of the UV square; [blue.obj]: a blue
    triangle in its corner; [plain.obj]: a mesh whose visual has no
    vertex colours. *)
Definition load (path : string) : res Mesh :=
  if String.eqb path "red.obj" then
    mret (triangle (rgb8 255 0 0 255) (0, 0) (1, 0) (0, 1))
  else if String.eqb path "blue.obj" then
    mret (triangle (rgb8 0 0 255 255) (0, 0) (1 # 2, 0) (0, 1 # 2))
  else if String.eqb path "plain.obj" then
    mret {| visual := Some {| vertex_colors := None |};
            vertices := []; faces := [] |}
  else raise (OSError "no such file").

(** The atlas keeps every vertex and uses its [x], [y] as UV. *)
Definition parametrize (vs : list vertex) (fs : list face)
  : list nat * list face * list (Q * Q) :=
  (seq 0 (length vs), fs, (fun v : vertex => (v.1.1, v.1.2)) <$> vs).

(** Memory for buffers of up to 4096 x 4096 texels. *)
Definition memory (n : Z) : option exn :=
  if (n <=? 4096)%Z then None
  else Some (MemoryError "Unable to allocate array").

#[export] Instance collaborators : Collaborators := {|
  allocation_error := memory;
  trimesh_load := load;
  xatlas_parametrize := parametrize;
  cv2_inpaint := fill;
  MedianFilter := fun _ img => img;
  GaussianBlur := fun _ img => img;
  resize_lanczos := fun _ img => img
|}.

Definition fresh (c : Converter) : State :=
  {| self := c; warnings_log := []; exported := []; stdout := [] |}.

(** A converter with a 3 x 3 buffer. *)
Definition small3 : Converter :=
  {| texture_size := 3; upscaling := 1; buffer_size := 3;
     median_size := 3; blur_radius := 1;
     texture_buffer := zeros 3; texture := None |}.

Definition red3 : list (list (rgba Z)) :=
  replicate 3 (replicate 3 (rgb8 255 0 0 255)).

(** A converter with a 2 x 2 buffer. *)
Definition small : Converter :=
  {| texture_size := 2; upscaling := 1; buffer_size := 2;
     median_size := 3; blur_radius := 1;
     texture_buffer := zeros 2; texture := None |}.

End Demo.

(** * Properties *)

Section Geometry.
Import Utils.

Lemma Qltb_lt (x y : Q) : Qltb x y = true <-> x < y.
Proof.
  unfold Qltb. rewrite negb_true_iff, <- not_true_iff_false, Qle_bool_iff.
  split; [apply Qnot_le_lt | apply Qlt_not_le].
Qed.

Lemma Qltb_ge (x y : Q) : Qltb x y = false <-> y <= x.
Proof.
  unfold Qltb. rewrite negb_false_iff, Qle_bool_iff. reflexivity.
Qed.

Lemma Qltb_proper (x x' y y' : Q) : x == x' -> y == y' -> Qltb x y = Qltb x' y'.
Proof.
  intros Hx Hy. destruct (Qltb x' y') eqn:E.
  - apply Qltb_lt. apply Qltb_lt in E. rewrite Hx, Hy. exact E.
  - apply Qltb_ge. apply Qltb_ge in E. rewrite Hx, Hy. exact E.
Qed.









End Geometry.

(** ** Rounding *)

Section Rounding.
Import Ieee.

Lemma round_proper (prec emin : Z) (p q : Q) :
  p == q -> round prec emin p = round prec emin q.
Proof. intros E. unfold round. rewrite (Qred_complete _ _ E). reflexivity. Qed.

Lemma round_zero (prec emin : Z) (q : Q) : q == 0 -> round prec emin q = 0.
Proof. intros E. rewrite (round_proper _ _ _ _ E). reflexivity. Qed.




Lemma ge_pow2_ilog2 (n : Z) (d : positive) :
  (0 < n)%Z -> ge_pow2 n d (ilog2 n d) = true.
Proof.
  intros Hn. unfold ilog2.
  set (e := (Z.log2 n - Z.log2 (Z.pos d))%Z).
  destruct (ge_pow2 n d e) eqn:E; [exact E|].
  destruct (Z.log2_spec n Hn) as [Ln _].
  destruct (Z.log2_spec (Z.pos d) ltac:(lia)) as [_ Ld].
  pose proof (Z.log2_nonneg n). pose proof (Z.log2_nonneg (Z.pos d)).
  unfold ge_pow2. destruct (Z.leb_spec 0 (e - 1)) as [He|He].
  - apply Z.leb_le.
    assert (E2 : (2 ^ Z.log2 n
                  = 2 ^ Z.succ (Z.log2 (Z.pos d)) * 2 ^ (e - 1))%Z).
    { rewrite <- Z.pow_add_r by lia. f_equal. unfold e. lia. }
    assert (0 < 2 ^ (e - 1))%Z by (apply Z.pow_pos_nonneg; lia).
    nia.
  - apply Z.leb_le.
    assert (E2 : (2 ^ Z.succ (Z.log2 (Z.pos d))
                  = 2 ^ Z.log2 n * 2 ^ (- (e - 1)))%Z).
    { rewrite <- Z.pow_add_r by lia. f_equal. unfold e. lia. }
    assert (0 < 2 ^ (- (e - 1)))%Z by (apply Z.pow_pos_nonneg; lia).
    nia.
Qed.

(** A value [m / 2^j] with [m] of at most [prec] bits and [2^-j] not below
    the least positive value of the format is its own rounding. *)
Lemma round_pos_exact (prec emin : Z) (n : Z) (d : positive) (m j : Z) :
  (0 < n)%Z -> (0 < m < 2 ^ prec)%Z -> (0 <= j)%Z -> (emin <= - j)%Z ->
  (0 < prec)%Z ->
  (n * 2 ^ j = m * Z.pos d)%Z ->
  round_pos prec emin n d == n # d.
Proof.
  intros Hn Hm Hj Hemin Hprec Hnd.
  pose proof (ge_pow2_ilog2 n d Hn) as HL.
  set (L := ilog2 n d) in *.
  assert (HLj : (L - (prec - 1) <= - j)%Z).
  { unfold ge_pow2 in HL. destruct (Z.leb_spec 0 L) as [HL0|HL0].
    - apply Z.leb_le in HL.
      assert (Ha : (2 ^ (L + j) <= m)%Z).
      { rewrite Z.pow_add_r by lia.
        assert (0 < 2 ^ j)%Z by (apply Z.pow_pos_nonneg; lia). nia. }
      assert (Hb : (2 ^ (L + j) < 2 ^ prec)%Z) by lia.
      apply Z.pow_lt_mono_r_iff in Hb; lia.
    - apply Z.leb_le in HL.
      assert (Ha : (2 ^ j <= m * 2 ^ (- L))%Z).
      { assert (0 < 2 ^ (- L))%Z by (apply Z.pow_pos_nonneg; lia). nia. }
      assert (Hb : (2 ^ j < 2 ^ (prec - L))%Z).
      { replace (prec - L)%Z with (prec + - L)%Z by lia.
        rewrite Z.pow_add_r by lia.
        assert (0 < 2 ^ (- L))%Z by (apply Z.pow_pos_nonneg; lia). nia. }
      apply Z.pow_lt_mono_r_iff in Hb; lia. }
  unfold round_pos. fold L.
  set (ex := Z.max (L - (prec - 1)) emin).
  assert (Hex : (ex <= - j)%Z) by (unfold ex; lia).
  destruct (Z.leb_spec 0 ex) as [H0|H0].
  - assert (Hex0 : ex = 0%Z) by lia. assert (Hj0 : j = 0%Z) by lia.
    rewrite Hex0. subst j. rewrite Z.pow_0_r, !Z.mul_1_r in *.
    unfold round_half_even. subst n.
    rewrite Z.div_mul, Z.mod_mul by lia.
    change (2 * 0 ?= Z.pos d)%Z with Lt.
    unfold Qeq. cbn. lia.
  - set (t := (- ex)%Z).
    assert (Ht : (n * 2 ^ t = m * 2 ^ (t - j) * Z.pos d)%Z).
    { replace t with (j + (t - j))%Z at 1 by lia.
      rewrite Z.pow_add_r by (unfold t; lia). nia. }
    unfold round_half_even. rewrite Ht.
    rewrite Z.div_mul, Z.mod_mul by lia.
    change (2 * 0 ?= Z.pos d)%Z with Lt.
    assert (0 < 2 ^ t)%Z by (apply Z.pow_pos_nonneg; unfold t; lia).
    unfold Qeq. cbn [Qnum Qden]. rewrite Z2Pos.id by assumption. lia.
Qed.

Lemma round_exact (prec emin : Z) (q : Q) (k j : Z) :
  (0 < prec)%Z -> (Z.abs k < 2 ^ prec)%Z -> (0 <= j)%Z -> (emin <= - j)%Z ->
  q * inject_Z (2 ^ j) == inject_Z k ->
  round prec emin q == q.
Proof.
  intros Hprec Hk Hj Hemin Hq.
  assert (Hp : (0 < 2 ^ j)%Z) by (apply Z.pow_pos_nonneg; lia).
  unfold round. pose proof (Qred_correct q) as Hr.
  rewrite <- Hr in Hq. transitivity (Qred q); [|exact Hr]. clear Hr.
  destruct (Qred q) as [n d]. cbn [Qnum Qden].
  unfold Qeq in Hq. cbn in Hq. rewrite Z.mul_1_r in Hq.
  destruct n as [|n|n].
  - reflexivity.
  - apply (round_pos_exact prec emin (Z.pos n) d k j); try lia.
  - assert (E : round_pos prec emin (Z.pos n) d == Z.pos n # d).
    { apply (round_pos_exact prec emin (Z.pos n) d (- k) j); lia. }
    rewrite E. reflexivity.
Qed.

End Rounding.

Section RoundingBounds.
Import Ieee.






End RoundingBounds.

Section FloatCoverage.
Import Utils.

Lemma inject_Z_sub (a b : Z) : inject_Z (a - b) == inject_Z a - inject_Z b.
Proof. unfold Z.sub. rewrite inject_Z_plus, inject_Z_opp. ring. Qed.

(** Integers and half-integers below [2^52] are float64 values. *)
Lemma round64_half (q : Q) (k : Z) :
  q * 2 == inject_Z k -> (Z.abs k < 2 ^ 53)%Z -> Float64.round q == q.
Proof.
  intros Hq Hk. apply (round_exact 53 (-1074) q k 1); try lia. exact Hq.
Qed.

Lemma fsub_half (x y : Q) (kx ky : Z) :
  x * 2 == inject_Z kx -> y * 2 == inject_Z ky ->
  (Z.abs (kx - ky) < 2 ^ 53)%Z ->
  Float64.sub x y == x - y.
Proof.
  intros Hx Hy Hk. apply (round64_half _ (kx - ky)); [|exact Hk].
  rewrite inject_Z_sub, <- Hx, <- Hy. ring.
Qed.

Lemma fmul_half (x y : Q) (kx ky : Z) :
  x * 2 == inject_Z kx -> y == inject_Z ky ->
  (Z.abs (kx * ky) < 2 ^ 53)%Z ->
  Float64.mul x y == x * y.
Proof.
  intros Hx Hy Hk. apply (round64_half _ (kx * ky)); [|exact Hk].
  rewrite inject_Z_mult, <- Hx, <- Hy. ring.
Qed.

Lemma fmul_half_r (x y : Q) (kx ky : Z) :
  x == inject_Z kx -> y * 2 == inject_Z ky ->
  (Z.abs (kx * ky) < 2 ^ 53)%Z ->
  Float64.mul x y == x * y.
Proof.
  intros Hx Hy Hk. apply (round64_half _ (kx * ky)); [|exact Hk].
  rewrite inject_Z_mult, <- Hx, <- Hy. ring.
Qed.

Lemma abs_mul_le (a b A B : Z) :
  (Z.abs a <= A)%Z -> (Z.abs b <= B)%Z -> (Z.abs (a * b) <= A * B)%Z.
Proof.
  intros Ha Hb. rewrite Z.abs_mul.
  apply Z.mul_le_mono_nonneg; lia.
Qed.

(** On a half-integer point and integer vertices of magnitude at most
    [2^24], no operation of [sign] rounds. *)
Lemma float64_sign_exact (px py : Z) (a b : Z * Z) :
  (Z.abs px <= 2 ^ 26)%Z -> (Z.abs py <= 2 ^ 26)%Z ->
  (Z.abs a.1 <= 2 ^ 24)%Z -> (Z.abs a.2 <= 2 ^ 24)%Z ->
  (Z.abs b.1 <= 2 ^ 24)%Z -> (Z.abs b.2 <= 2 ^ 24)%Z ->
  Float64.sign (px # 2, py # 2) (Conv.as_point a) (Conv.as_point b)
  == sign (px # 2, py # 2) (Conv.as_point a) (Conv.as_point b).
Proof.
  intros Hpx Hpy Ha1 Ha2 Hb1 Hb2.
  destruct a as [a1 a2], b as [b1 b2]. cbn [fst snd] in *.
  unfold Float64.sign, sign, Conv.as_point. cbn [fst snd].
  assert (Px : (px # 2) * 2 == inject_Z px)
    by (unfold Qeq; cbn; lia).
  assert (Py : (py # 2) * 2 == inject_Z py)
    by (unfold Qeq; cbn; lia).
  assert (I2 : forall z, inject_Z z * 2 == inject_Z (2 * z))
    by (intros z; rewrite inject_Z_mult; ring).
  change (2 ^ 26)%Z with 67108864%Z in *.
  change (2 ^ 24)%Z with 16777216%Z in *.
  assert (P53 : (2 ^ 53 = 9007199254740992)%Z) by reflexivity.
  pose proof (fsub_half (px # 2) (inject_Z b1) px (2 * b1) Px (I2 b1)
                ltac:(lia)) as E1.
  pose proof (fsub_half (inject_Z a2) (inject_Z b2) (2 * a2) (2 * b2)
                (I2 a2) (I2 b2) ltac:(lia)) as E2.
  pose proof (fsub_half (inject_Z a1) (inject_Z b1) (2 * a1) (2 * b1)
                (I2 a1) (I2 b1) ltac:(lia)) as E3.
  pose proof (fsub_half (py # 2) (inject_Z b2) py (2 * b2) Py (I2 b2)
                ltac:(lia)) as E4.
  set (s1 := Float64.sub (px # 2) (inject_Z b1)) in *.
  set (s2 := Float64.sub (inject_Z a2) (inject_Z b2)) in *.
  set (s3 := Float64.sub (inject_Z a1) (inject_Z b1)) in *.
  set (s4 := Float64.sub (py # 2) (inject_Z b2)) in *.
  assert (K1 : s1 * 2 == inject_Z (px - 2 * b1)).
  { rewrite E1, inject_Z_sub, <- Px, <- I2. ring. }
  assert (K2 : s2 == inject_Z (a2 - b2)).
  { rewrite E2, inject_Z_sub. reflexivity. }
  assert (K3 : s3 == inject_Z (a1 - b1)).
  { rewrite E3, inject_Z_sub. reflexivity. }
  assert (K4 : s4 * 2 == inject_Z (py - 2 * b2)).
  { rewrite E4, inject_Z_sub, <- Py, <- I2. ring. }
  assert (B1 : (Z.abs ((px - 2 * b1) * (a2 - b2)) <= 100663296 * 33554432)%Z)
    by (apply abs_mul_le; lia).
  assert (B2 : (Z.abs ((a1 - b1) * (py - 2 * b2)) <= 33554432 * 100663296)%Z)
    by (apply abs_mul_le; lia).
  pose proof (fmul_half s1 s2 _ _ K1 K2 ltac:(lia)) as M1.
  pose proof (fmul_half_r s3 s4 _ _ K3 K4 ltac:(lia)) as M2.
  set (m1 := Float64.mul s1 s2) in *.
  set (m2 := Float64.mul s3 s4) in *.
  assert (L1 : m1 * 2 == inject_Z ((px - 2 * b1) * (a2 - b2))).
  { rewrite M1, inject_Z_mult, <- K1, <- K2. ring. }
  assert (L2 : m2 * 2 == inject_Z ((a1 - b1) * (py - 2 * b2))).
  { rewrite M2, inject_Z_mult, <- K3, <- K4. ring. }
  rewrite (fsub_half m1 m2 _ _ L1 L2 ltac:(lia)).
  rewrite M1, M2, E1, E2, E3, E4. reflexivity.
Qed.

(** What the rasteriser passes to the coverage test: a texel centre and
    integer corners.  There the float64 test is the exact one. *)
Lemma float64_coverage_exact (y x : Z) (a b c : Z * Z) :
  (Z.abs x <= 2 ^ 24)%Z -> (Z.abs y <= 2 ^ 24)%Z ->
  (Z.abs a.1 <= 2 ^ 24)%Z -> (Z.abs a.2 <= 2 ^ 24)%Z ->
  (Z.abs b.1 <= 2 ^ 24)%Z -> (Z.abs b.2 <= 2 ^ 24)%Z ->
  (Z.abs c.1 <= 2 ^ 24)%Z -> (Z.abs c.2 <= 2 ^ 24)%Z ->
  Float64.is_point_in_triangle (RasterSpec.centre y x)
    (Conv.as_point a) (Conv.as_point b) (Conv.as_point c)
  = is_point_in_triangle (RasterSpec.centre y x)
      (Conv.as_point a) (Conv.as_point b) (Conv.as_point c).
Proof.
  intros Hx Hy Ha1 Ha2 Hb1 Hb2 Hc1 Hc2.
  assert (Ec : RasterSpec.centre y x = ((2 * x + 1) # 2, (2 * y + 1) # 2)).
  { unfold RasterSpec.centre. f_equal.
    - unfold Qplus, inject_Z. cbn. f_equal. lia.
    - unfold Qplus, inject_Z. cbn. f_equal. lia. }
  rewrite Ec.
  change (2 ^ 24)%Z with 16777216%Z in *.
  assert (Hs : forall u v : Z * Z,
    (Z.abs u.1 <= 16777216)%Z -> (Z.abs u.2 <= 16777216)%Z ->
    (Z.abs v.1 <= 16777216)%Z -> (Z.abs v.2 <= 16777216)%Z ->
    Float64.sign ((2 * x + 1) # 2, (2 * y + 1) # 2)
      (Conv.as_point u) (Conv.as_point v)
    == sign ((2 * x + 1) # 2, (2 * y + 1) # 2)
         (Conv.as_point u) (Conv.as_point v)).
  { intros u v Hu1 Hu2 Hv1 Hv2.
    apply float64_sign_exact;
      change (2 ^ 26)%Z with 67108864%Z;
      change (2 ^ 24)%Z with 16777216%Z; lia. }
  unfold Float64.is_point_in_triangle, is_point_in_triangle.
  cbv zeta.
  rewrite !(Qltb_proper _ _ _ _ (Hs a b Ha1 Ha2 Hb1 Hb2) (Qeq_refl 0)).
  rewrite !(Qltb_proper _ _ _ _ (Qeq_refl 0) (Hs a b Ha1 Ha2 Hb1 Hb2)).
  rewrite !(Qltb_proper _ _ _ _ (Hs b c Hb1 Hb2 Hc1 Hc2) (Qeq_refl 0)).
  rewrite !(Qltb_proper _ _ _ _ (Qeq_refl 0) (Hs b c Hb1 Hb2 Hc1 Hc2)).
  rewrite !(Qltb_proper _ _ _ _ (Hs c a Hc1 Hc2 Ha1 Ha2) (Qeq_refl 0)).
  rewrite !(Qltb_proper _ _ _ _ (Qeq_refl 0) (Hs c a Hc1 Hc2 Ha1 Ha2)).
  reflexivity.
Qed.

End FloatCoverage.

Section CoverageTest.
Import Utils.






(** The test rejects: a point beyond the hypotenuse, and points beside
    each of the two legs. *)
Example is_point_in_triangle_rejects :
  is_point_in_triangle (3, 3) (0, 0) (4, 0) (0, 4) = false
  /\ is_point_in_triangle (-1, 1) (0, 0) (4, 0) (0, 4) = false
  /\ is_point_in_triangle (1, -1) (0, 0) (4, 0) (0, 4) = false
  /\ is_point_in_triangle (1, 1) (0, 0) (4, 0) (0, 4) = true
  /\ Float64.is_point_in_triangle (3, 3) (0, 0) (4, 0) (0, 4) = false
  /\ Float64.is_point_in_triangle (1, 1) (0, 0) (4, 0) (0, 4) = true.
Proof. repeat split; vm_compute; reflexivity. Qed.




End CoverageTest.

Section Translation.
Import Utils.

(** In exact arithmetic the signs depend only on the relative position of
    the point and the vertices. *)
Lemma sign_shift (t a b c : point) :
  sign (a.1 + t.1, a.2 + t.2) (b.1 + t.1, b.2 + t.2) (c.1 + t.1, c.2 + t.2)
  == sign a b c.
Proof. unfold sign. cbn [fst snd]. ring. Qed.

(** On the inputs of the rasteriser the coverage test is invariant under a
    translation by whole texels: moving the texel and the three integer
    corners by the same integer vector changes nothing, as long as all
    coordinates stay within [2^24] in magnitude, where the float64 signs
    are exact. *)
Theorem is_point_in_triangle_shift (dy dx y x : Z) (a b c : Z * Z) :
  Forall (fun z => (Z.abs z <= 2 ^ 24)%Z)
    [x; y; a.1; a.2; b.1; b.2; c.1; c.2] ->
  Forall (fun z => (Z.abs z <= 2 ^ 24)%Z)
    [x + dx; y + dy; a.1 + dx; a.2 + dy; b.1 + dx; b.2 + dy;
     c.1 + dx; c.2 + dy]%Z ->
  Float64.is_point_in_triangle (RasterSpec.centre (y + dy) (x + dx))
    (Conv.as_point (a.1 + dx, a.2 + dy)%Z)
    (Conv.as_point (b.1 + dx, b.2 + dy)%Z)
    (Conv.as_point (c.1 + dx, c.2 + dy)%Z)
  = Float64.is_point_in_triangle (RasterSpec.centre y x)
      (Conv.as_point a) (Conv.as_point b) (Conv.as_point c).
Proof.
  intros H0 H1. rewrite !Forall_cons in H0, H1.
  destruct H0 as (Hx & Hy & Ha1 & Ha2 & Hb1 & Hb2 & Hc1 & Hc2 & _).
  destruct H1 as (Hx' & Hy' & Ha1' & Ha2' & Hb1' & Hb2' & Hc1' & Hc2' & _).
  rewrite !float64_coverage_exact by assumption.
  set (t := (inject_Z dx, inject_Z dy)).
  assert (Es : forall (u : point) (v w : Z * Z) (E : u = RasterSpec.centre y x),
    sign (RasterSpec.centre (y + dy) (x + dx))
      (Conv.as_point (v.1 + dx, v.2 + dy)%Z)
      (Conv.as_point (w.1 + dx, w.2 + dy)%Z)
    == sign u (Conv.as_point v) (Conv.as_point w)).
  { intros u v w ->. rewrite <- (sign_shift t).
    unfold sign, RasterSpec.centre, Conv.as_point, t. cbn [fst snd].
    rewrite !inject_Z_plus. ring. }
  unfold is_point_in_triangle. cbv zeta.
  rewrite !(Qltb_proper _ _ _ _ (Es _ a b eq_refl) (Qeq_refl 0)).
  rewrite !(Qltb_proper _ _ _ _ (Qeq_refl 0) (Es _ a b eq_refl)).
  rewrite !(Qltb_proper _ _ _ _ (Es _ b c eq_refl) (Qeq_refl 0)).
  rewrite !(Qltb_proper _ _ _ _ (Qeq_refl 0) (Es _ b c eq_refl)).
  rewrite !(Qltb_proper _ _ _ _ (Es _ c a eq_refl) (Qeq_refl 0)).
  rewrite !(Qltb_proper _ _ _ _ (Qeq_refl 0) (Es _ c a eq_refl)).
  reflexivity.
Qed.

Lemma is_point_in_triangle_shift_witness :
  Float64.is_point_in_triangle (RasterSpec.centre (1 + 10) (1 + 20))
    (Conv.as_point (0 + 20, 0 + 10)%Z) (Conv.as_point (4 + 20, 0 + 10)%Z)
    (Conv.as_point (0 + 20, 4 + 10)%Z)
  = Float64.is_point_in_triangle (RasterSpec.centre 1 1)
      (Conv.as_point (0, 0)%Z) (Conv.as_point (4, 0)%Z)
      (Conv.as_point (0, 4)%Z).
Proof.
  apply (is_point_in_triangle_shift 10 20 1 1 (0, 0)%Z (4, 0)%Z (0, 4)%Z);
    repeat constructor; cbn; lia.
Defined.

End Translation.

Section Interpolation.
Import Utils.

Lemma clip_spec (x lo hi : Q) :
  lo <= hi ->
  (x <= lo /\ clip x lo hi == lo)
  \/ (lo <= x <= hi /\ clip x lo hi == x)
  \/ (hi <= x /\ clip x lo hi == hi).
Proof.
  intros Hlh. unfold clip.
  destruct (Q.max_spec x lo) as [[H1 E1]|[H1 E1]];
    destruct (Q.min_spec hi (Qmax x lo)) as [[H2 E2]|[H2 E2]];
    rewrite E2, ?E1; rewrite E1 in H2.
  - right; right. split; [lra | reflexivity].
  - left. split; [lra | reflexivity].
  - right; right. split; [lra | reflexivity].
  - right; left. split; [lra | reflexivity].
Qed.

Lemma clip_range (x lo hi : Q) : lo <= hi -> lo <= clip x lo hi <= hi.
Proof.
  intros H. destruct (clip_spec x lo hi H) as [[? E]|[[? E]|[? E]]];
    rewrite E; lra.
Qed.

Lemma clip_id (x lo hi : Q) : lo <= x <= hi -> clip x lo hi == x.
Proof.
  intros H. destruct (clip_spec x lo hi) as [[? E]|[[? E]|[? E]]];
    try rewrite E; lra.
Qed.

#[local] Instance clip_proper : Proper (Qeq ==> Qeq ==> Qeq ==> Qeq) clip.
Proof.
  intros x x' Hx lo lo' Hlo hi hi' Hhi. unfold clip.
  rewrite Hx, Hlo, Hhi. reflexivity.
Qed.

Lemma eps_pos : 0 < eps.
Proof. reflexivity. Qed.

Lemma denom_nonzero (d : Q) : eps <= Qabs d -> ~ d == 0.
Proof.
  intros H E. rewrite E in H. revert H. apply Qlt_not_le. reflexivity.
Qed.

Lemma fdiv_some (a d : Q) : ~ d == 0 -> fdiv a d = Some (a / d).
Proof.
  intros H. unfold fdiv. destruct (Qeq_bool d 0) eqn:E; [|reflexivity].
  apply Qeq_bool_iff in E. contradiction.
Qed.

(** The two branches of [barycentric_interpolate]. *)
Lemma barycentric_interpolate_degenerate `{Dtype C}
    (v0 v1 v2 : point) (c0 c1 c2 : rgba C) (p : point) :
  Qabs (denom_of v0 v1 v2) < eps ->
  barycentric_interpolate v0 v1 v2 c0 c1 c2 p
  = Some (rgba_map (fun s => dt_float s / 3) (add3 c0 c1 c2)).
Proof.
  intros Hd. apply Qltb_lt in Hd. unfold barycentric_interpolate.
  unfold denom_of in Hd. cbv zeta in Hd. rewrite Hd. reflexivity.
Qed.

Lemma barycentric_interpolate_regular `{Dtype C}
    (v0 v1 v2 : point) (c0 c1 c2 : rgba C) (p : point) :
  eps <= Qabs (denom_of v0 v1 v2) ->
  barycentric_interpolate v0 v1 v2 c0 c1 c2 p
  = Some (Spec.interpolate v0 v1 v2 c0 c1 c2 p).
Proof.
  intros Hd. pose proof (denom_nonzero _ Hd) as Hnz.
  apply Qltb_ge in Hd. unfold barycentric_interpolate.
  unfold denom_of in Hd, Hnz. cbv zeta in Hd, Hnz. rewrite Hd.
  rewrite (fdiv_some _ _ Hnz). cbn [mbind option_bind].
  rewrite (fdiv_some _ _ Hnz). cbn [mbind option_bind].
  unfold Spec.interpolate, Spec.weights, Spec.clamp01, Spec.clamp255.
  cbv beta zeta iota. reflexivity.
Qed.

(** The function is total: no input makes a division produce a value that
    is not finite. *)
Lemma barycentric_interpolate_finite `{Dtype C}
    (v0 v1 v2 : point) (c0 c1 c2 : rgba C) (p : point) :
  is_Some (barycentric_interpolate v0 v1 v2 c0 c1 c2 p).
Proof.
  destruct (Qlt_le_dec (Qabs (denom_of v0 v1 v2)) eps) as [Hd|Hd].
  - rewrite barycentric_interpolate_degenerate by exact Hd. eauto.
  - rewrite barycentric_interpolate_regular by exact Hd. eauto.
Qed.

(** The channels of a clamped weighted sum, one by one. *)
Lemma interpolate_channels `{Dtype C} (v0 v1 v2 : point) (c0 c1 c2 : rgba C)
    (p : point) (U V W : Q) :
  clip (Spec.weights v0 v1 v2 p).1.1 0 1 == U ->
  clip (Spec.weights v0 v1 v2 p).1.2 0 1 == V ->
  clip (Spec.weights v0 v1 v2 p).2 0 1 == W ->
  rgba_eq (Spec.interpolate v0 v1 v2 c0 c1 c2 p)
    (rgba_map (fun x => clip x 0 255) (weighted U V W c0 c1 c2)).
Proof.
  intros HU HV HW.
  unfold Spec.interpolate, Spec.clamp01, Spec.clamp255.
  destruct (Spec.weights v0 v1 v2 p) as [[u v] w]. cbn [fst snd] in *.
  unfold rgba_eq, weighted, rgba_map, rgba_zip; cbn [chR chG chB chA].
  rewrite HU, HV, HW. repeat split; reflexivity.
Qed.

(** The weights of [Spec.weights] are the barycentric coordinates of [p]:
    they sum to one and reproduce [p] from the three vertices. *)
Lemma weights_barycentric (v0 v1 v2 p : point) :
  ~ denom_of v0 v1 v2 == 0 ->
  let u := (Spec.weights v0 v1 v2 p).1.1 in
  let v := (Spec.weights v0 v1 v2 p).1.2 in
  let w := (Spec.weights v0 v1 v2 p).2 in
  u + v + w == 1
  /\ p.1 == u * v0.1 + v * v1.1 + w * v2.1
  /\ p.2 == u * v0.2 + v * v1.2 + w * v2.2.
Proof.
  intros Hnz. unfold denom_of in Hnz.
  unfold Spec.weights, dot, sub in *; cbn [fst snd] in *.
  repeat split; field; exact Hnz.
Qed.

(** [Spec.interpolate] through the three projections of the weights. *)
Lemma interpolate_projections `{Dtype C} (v0 v1 v2 : point)
    (c0 c1 c2 : rgba C) (p : point) :
  Spec.interpolate v0 v1 v2 c0 c1 c2 p
  = rgba_map Spec.clamp255
      (weighted (Spec.clamp01 (Spec.weights v0 v1 v2 p).1.1)
                (Spec.clamp01 (Spec.weights v0 v1 v2 p).1.2)
                (Spec.clamp01 (Spec.weights v0 v1 v2 p).2) c0 c1 c2).
Proof.
  unfold Spec.interpolate.
  destruct (Spec.weights v0 v1 v2 p) as [[a b] c]. reflexivity.
Qed.

(** The clamped weighted sum, channel by channel. *)
Lemma clamped_sum_channels `{Dtype C} (u v w : Q) (c0 c1 c2 : rgba C) :
  rgba_map Spec.clamp255
    (weighted (Spec.clamp01 u) (Spec.clamp01 v) (Spec.clamp01 w) c0 c1 c2)
  = let U := Qmin 1 (Qmax u 0) in
    let V := Qmin 1 (Qmax v 0) in
    let W := Qmin 1 (Qmax w 0) in
    let channel := fun a b c : C =>
      Qmin 255 (Qmax (U * dt_float a + V * dt_float b + W * dt_float c) 0) in
    RGBA (channel (chR c0) (chR c1) (chR c2))
         (channel (chG c0) (chG c1) (chG c2))
         (channel (chB c0) (chB c1) (chB c2))
         (channel (chA c0) (chA c1) (chA c2)).
Proof. reflexivity. Qed.

(** C5. Outside the degenerate branch [barycentric_interpolate] returns the
    colour the specification describes.  Its weights [u], [v], [w] are the
    barycentric coordinates of [p]: they sum to one, so [u = 1 - v - w], and
    reproduce [p] from the three vertices.  Each is clamped to [0, 1] on its
    own; every channel of the result is the sum of the three vertex channels
    times these clamped weights, taken as they are, and then clamped to
    [0, 255]. *)
Theorem barycentric_interpolate_nondegenerate `{Dtype C}
    (v0 v1 v2 : point) (c0 c1 c2 : rgba C) (p : point) :
  eps <= Qabs (denom_of v0 v1 v2) ->
  let u := (Spec.weights v0 v1 v2 p).1.1 in
  let v := (Spec.weights v0 v1 v2 p).1.2 in
  let w := (Spec.weights v0 v1 v2 p).2 in
  let U := Qmin 1 (Qmax u 0) in
  let V := Qmin 1 (Qmax v 0) in
  let W := Qmin 1 (Qmax w 0) in
  let channel := fun a b c : C =>
    Qmin 255 (Qmax (U * dt_float a + V * dt_float b + W * dt_float c) 0) in
  (u == 1 - v - w
   /\ p.1 == u * v0.1 + v * v1.1 + w * v2.1
   /\ p.2 == u * v0.2 + v * v1.2 + w * v2.2)
  /\ (0 <= U <= 1 /\ 0 <= V <= 1 /\ 0 <= W <= 1)
  /\ barycentric_interpolate v0 v1 v2 c0 c1 c2 p
     = Some (RGBA (channel (chR c0) (chR c1) (chR c2))
                  (channel (chG c0) (chG c1) (chG c2))
                  (channel (chB c0) (chB c1) (chB c2))
                  (channel (chA c0) (chA c1) (chA c2)))
  /\ (forall r, barycentric_interpolate v0 v1 v2 c0 c1 c2 p = Some r ->
        rgba_all (fun x => 0 <= x <= 255) r).
Proof.
  intros Hd u v w U V W channel.
  assert (R1 : forall x, 0 <= Qmin 1 (Qmax x 0) <= 1)
    by (intros x; apply (clip_range x 0 1); lra).
  assert (R255 : forall x, 0 <= Qmin 255 (Qmax x 0) <= 255)
    by (intros x; apply (clip_range x 0 255); lra).
  split.
  { pose proof (weights_barycentric v0 v1 v2 p (denom_nonzero _ Hd)) as HB.
    cbv zeta in HB. fold u v w in HB. destruct HB as (Hs & Hx & Hy).
    clear U V W channel. clearbody u v w.
    split; [lra|]. split; assumption. }
  split; [exact (conj (R1 u) (conj (R1 v) (R1 w)))|].
  assert (E : barycentric_interpolate v0 v1 v2 c0 c1 c2 p
     = Some (RGBA (channel (chR c0) (chR c1) (chR c2))
                  (channel (chG c0) (chG c1) (chG c2))
                  (channel (chB c0) (chB c1) (chB c2))
                  (channel (chA c0) (chA c1) (chA c2)))).
  { rewrite barycentric_interpolate_regular by exact Hd.
    rewrite interpolate_projections, clamped_sum_channels. reflexivity. }
  split; [exact E|].
  intros r Hr. rewrite E in Hr. injection Hr as <-.
  repeat split; apply R255.
Qed.

(** At [(1, 1)] in the triangle [(0, 0), (4, 0), (0, 4)] the weights are
    1/2, 1/4, 1/4: red, green and blue vertices give (127.5, 63.75, 63.75)
    with full alpha. *)
Lemma barycentric_interpolate_nondegenerate_witness :
  exists r,
    barycentric_interpolate (0, 0) (4, 0) (0, 4)
      (rgb8 255 0 0 255) (rgb8 0 255 0 255) (rgb8 0 0 255 255) (1, 1)
    = Some r
    /\ rgba_eq r (RGBA (255 # 2) (255 # 4) (255 # 4) 255).
Proof.
  assert (Hd : eps <= Qabs (denom_of (0, 0) (4, 0) (0, 4)))
    by (vm_compute; discriminate).
  eexists. split.
  - exact (proj1 (proj2 (proj2
      (barycentric_interpolate_nondegenerate (0, 0) (4, 0) (0, 4)
         (rgb8 255 0 0 255) (rgb8 0 255 0 255) (rgb8 0 0 255 255) (1, 1)
         Hd)))).
  - repeat split; vm_compute; reflexivity.
Defined.

(** The clamped weights are used as they are: outside the triangle they no
    longer sum to one, and three equal vertex colours of 100 give 200. *)
Example clamped_weights_not_renormalised :
  exists r,
    barycentric_interpolate (0, 0) (1, 0) (0, 1)
      (rgb8 100 100 100 100) (rgb8 100 100 100 100)
      (rgb8 100 100 100 100) (1, 1) = Some r
    /\ rgba_eq r (RGBA 200 200 200 200).
Proof.
  eexists. split; [vm_compute; reflexivity|].
  repeat split; reflexivity.
Qed.

Lemma rgba_eq_trans (a b c : rgba Q) : rgba_eq a b -> rgba_eq b c -> rgba_eq a c.
Proof.
  unfold rgba_eq. intros (?&?&?&?) (?&?&?&?).
  repeat split; etransitivity; eassumption.
Qed.

(** The interpolated colour at a point whose barycentric weights are known
    and already inside [0, 1]. *)
Lemma interpolate_at `{Dtype C} (v0 v1 v2 : point) (c0 c1 c2 : rgba C)
    (p : point) (U V W : Q) :
  eps <= Qabs (denom_of v0 v1 v2) ->
  (Spec.weights v0 v1 v2 p).1.2 == V ->
  (Spec.weights v0 v1 v2 p).2 == W ->
  U == 1 - V - W ->
  0 <= U <= 1 -> 0 <= V <= 1 -> 0 <= W <= 1 ->
  exists r, barycentric_interpolate v0 v1 v2 c0 c1 c2 p = Some r
    /\ rgba_eq r (rgba_map (fun x => clip x 0 255) (weighted U V W c0 c1 c2)).
Proof.
  intros Hd HV HW HU RU RV RW.
  rewrite barycentric_interpolate_regular by exact Hd.
  eexists. split; [reflexivity|].
  assert (HU' : (Spec.weights v0 v1 v2 p).1.1 == U).
  { rewrite HU, <- HV, <- HW. unfold Spec.weights. cbn [fst snd]. ring. }
  apply interpolate_channels.
  - rewrite HU'. apply clip_id, RU.
  - rewrite HV. apply clip_id, RV.
  - rewrite HW. apply clip_id, RW.
Qed.

(** C7. For a triangle outside the degenerate branch and vertex colours
    that are valid channel values (in [0, 255], as every [uint8] colour is),
    the interpolated colour at a vertex is that vertex's colour, and at the
    centroid it is the unweighted average of the three colours.  In the
    rational model both hold exactly, hence within any tolerance. *)
Theorem barycentric_interpolate_vertices_centroid `{Dtype C}
    (v0 v1 v2 : point) (c0 c1 c2 : rgba C) :
  eps <= Qabs (denom_of v0 v1 v2) ->
  rgba_all (fun c => 0 <= dt_float c <= 255) c0 ->
  rgba_all (fun c => 0 <= dt_float c <= 255) c1 ->
  rgba_all (fun c => 0 <= dt_float c <= 255) c2 ->
  (exists r, barycentric_interpolate v0 v1 v2 c0 c1 c2 v0 = Some r
             /\ rgba_eq r (rgba_map dt_float c0))
  /\ (exists r, barycentric_interpolate v0 v1 v2 c0 c1 c2 v1 = Some r
             /\ rgba_eq r (rgba_map dt_float c1))
  /\ (exists r, barycentric_interpolate v0 v1 v2 c0 c1 c2 v2 = Some r
             /\ rgba_eq r (rgba_map dt_float c2))
  /\ (exists r,
        barycentric_interpolate v0 v1 v2 c0 c1 c2
          ((v0.1 + v1.1 + v2.1) / 3, (v0.2 + v1.2 + v2.2) / 3) = Some r
        /\ rgba_eq r (Spec.average c0 c1 c2)).
Proof.
  intros Hd (R0&G0&B0&A0) (R1&G1&B1&A1) (R2&G2&B2&A2).
  pose proof (denom_nonzero _ Hd) as Hnz. unfold denom_of in Hnz.
  assert (Hw : forall p V W,
    (Spec.weights v0 v1 v2 p).1.2 == V -> (Spec.weights v0 v1 v2 p).2 == W ->
    0 <= 1 - V - W <= 1 -> 0 <= V <= 1 -> 0 <= W <= 1 ->
    forall t : rgba Q,
    rgba_eq (rgba_map (fun x => clip x 0 255) (weighted (1 - V - W) V W c0 c1 c2)) t ->
    exists r, barycentric_interpolate v0 v1 v2 c0 c1 c2 p = Some r
              /\ rgba_eq r t).
  { intros p V W HV HW RU RV RW t Ht.
    destruct (interpolate_at v0 v1 v2 c0 c1 c2 p (1 - V - W) V W)
      as (r & Er & Hr); auto; try reflexivity.
    exists r. split; [exact Er|]. eapply rgba_eq_trans; eassumption. }
  repeat split.
  - apply (Hw v0 0 0); try lra.
    + unfold Spec.weights, dot, sub; cbn [fst snd]. field. exact Hnz.
    + unfold Spec.weights, dot, sub; cbn [fst snd]. field. exact Hnz.
    + unfold rgba_eq, weighted, rgba_map, rgba_zip; cbn [chR chG chB chA].
      repeat split; rewrite clip_id; lra.
  - apply (Hw v1 1 0); try lra.
    + unfold Spec.weights, dot, sub; cbn [fst snd]. field. exact Hnz.
    + unfold Spec.weights, dot, sub; cbn [fst snd]. field. exact Hnz.
    + unfold rgba_eq, weighted, rgba_map, rgba_zip; cbn [chR chG chB chA].
      repeat split; rewrite clip_id; lra.
  - apply (Hw v2 0 1); try lra.
    + unfold Spec.weights, dot, sub; cbn [fst snd]. field. exact Hnz.
    + unfold Spec.weights, dot, sub; cbn [fst snd]. field. exact Hnz.
    + unfold rgba_eq, weighted, rgba_map, rgba_zip; cbn [chR chG chB chA].
      repeat split; rewrite clip_id; lra.
  - apply (Hw _ (1 # 3) (1 # 3)); try lra.
    + unfold Spec.weights, dot, sub; cbn [fst snd]. field. exact Hnz.
    + unfold Spec.weights, dot, sub; cbn [fst snd]. field. exact Hnz.
    + unfold Spec.average, rgba_eq, weighted, rgba_map, rgba_zip;
        cbn [chR chG chB chA].
      repeat split; (rewrite clip_id; [field | lra]).
Qed.

Lemma barycentric_interpolate_vertices_centroid_witness :
  exists r,
    barycentric_interpolate (0, 0) (4, 0) (0, 4)
      (rgb8 255 0 0 255) (rgb8 0 255 0 255) (rgb8 0 0 255 255) (4, 0)
    = Some r
    /\ rgba_eq r (rgba_map dt_float (rgb8 0 255 0 255)).
Proof.
  refine (proj1 (proj2
    (barycentric_interpolate_vertices_centroid (0, 0) (4, 0) (0, 4)
       (rgb8 255 0 0 255) (rgb8 0 255 0 255) (rgb8 0 0 255 255) _ _ _ _)));
    [vm_compute; discriminate | ..];
    repeat split; vm_compute; discriminate.
Defined.

(** The degenerate branch on float colours: the unweighted average. *)
Lemma barycentric_degenerate_float64 (v0 v1 v2 : point)
    (c0 c1 c2 : rgba float64) (p : point) :
  Qabs (denom_of v0 v1 v2) < eps ->
  exists r, barycentric_interpolate v0 v1 v2 c0 c1 c2 p = Some r
            /\ rgba_eq r (Spec.average c0 c1 c2).
Proof.
  intros Hd. rewrite barycentric_interpolate_degenerate by exact Hd.
  eexists. split; [reflexivity|].
  unfold Spec.average, add3, rgba_eq, rgba_map, rgba_zip;
    cbn [chR chG chB chA dt_add dt_float float64_dtype].
  repeat split; field.
Qed.

(** The degenerate branch on [uint8] colours: the sum is taken in [uint8]
    and wraps around before the division promotes it to a float. *)
Lemma barycentric_degenerate_uint8 (v0 v1 v2 : point)
    (c0 c1 c2 : rgba uint8) (p : point) :
  Qabs (denom_of v0 v1 v2) < eps ->
  barycentric_interpolate v0 v1 v2 c0 c1 c2 p
  = Some (rgba_map (fun s => inject_Z s / 3)
            (rgba_zip (fun a b => wrap8 (a + b))
               (rgba_zip (fun a b => wrap8 (a + b)) c0 c1) c2)).
Proof.
  intros Hd. rewrite barycentric_interpolate_degenerate by exact Hd.
  reflexivity.
Qed.

(** On [uint8] colours the degenerate branch gives the average as long as
    no channel sum reaches 256. *)
Lemma barycentric_degenerate_uint8_small (v0 v1 v2 : point)
    (c0 c1 c2 : rgba uint8) (p : point) :
  Qabs (denom_of v0 v1 v2) < eps ->
  rgba_all is_uint8 c0 -> rgba_all is_uint8 c1 -> rgba_all is_uint8 c2 ->
  rgba_all (fun s => (s < 256)%Z)
    (rgba_zip Z.add (rgba_zip Z.add c0 c1) c2) ->
  exists r, barycentric_interpolate v0 v1 v2 c0 c1 c2 p = Some r
            /\ rgba_eq r (Spec.average c0 c1 c2).
Proof.
  intros Hd (R0&G0&B0&A0) (R1&G1&B1&A1) (R2&G2&B2&A2) (SR&SG&SB&SA).
  rewrite barycentric_degenerate_uint8 by exact Hd.
  eexists. split; [reflexivity|].
  unfold is_uint8 in *.
  unfold Spec.average, rgba_eq, rgba_map, rgba_zip in *;
    cbn [chR chG chB chA dt_float uint8_dtype] in *.
  unfold wrap8.
  repeat split;
    match goal with
    | |- context [(((?a + ?b) mod 256 + ?c) mod 256)%Z] =>
        rewrite (Z.mod_small (a + b) 256) by lia;
        rewrite (Z.mod_small (a + b + c) 256) by lia
    end; rewrite !inject_Z_plus; field.
Qed.

(** C4, at a face the rasteriser really produces: three white [uint8]
    vertex colours on three UVs mapped to the same texel.  The branch is
    taken and returns finite numbers, but the [uint8] sum [255+255+255]
    wraps to 253, so the result is 253/3 in every channel and not the
    average 255. *)
Theorem barycentric_degenerate_uint8_wraps :
  let white := rgb8 255 255 255 255 in
  let v := (3, 3) in
  let p := (7 # 2, 7 # 2) in
  Qabs (denom_of v v v) < eps
  /\ barycentric_interpolate v v v white white white p
     = Some (RGBA (253 # 3) (253 # 3) (253 # 3) (253 # 3))
  /\ rgba_eq (Spec.average white white white) (RGBA 255 255 255 255)
  /\ ~ (exists r, barycentric_interpolate v v v white white white p = Some r
                  /\ rgba_eq r (Spec.average white white white)).
Proof.
  cbv zeta.
  assert (E : barycentric_interpolate (3, 3) (3, 3) (3, 3)
                (rgb8 255 255 255 255) (rgb8 255 255 255 255)
                (rgb8 255 255 255 255) (7 # 2, 7 # 2)
              = Some (RGBA (253 # 3) (253 # 3) (253 # 3) (253 # 3)))
    by (vm_compute; reflexivity).
  split; [reflexivity|]. split; [exact E|].
  split; [repeat split; reflexivity|].
  intros (r & Er & Hr). rewrite E in Er. injection Er as <-.
  destruct Hr as (Hr & _). cbn [chR] in Hr. revert Hr. vm_compute.
  discriminate.
Qed.

End Interpolation.

Section OutputPath.
Import Py Conv.

Lemma validate_default (st : State) :
  _validate_output_path None st = (inr (Path "output.glb"), st)
  /\ str (Path "output.glb") = "output.glb".
Proof. split; reflexivity. Qed.

(** A path whose suffix is [.glb] in any letter case is returned as it is,
    with no warning. *)
Lemma validate_glb (s : string) (st : State) :
  lower (suffix (Path s)) = ".glb" ->
  _validate_output_path (Some s) st = (inr (Path s), st).
Proof.
  intros E. unfold _validate_output_path. rewrite E. reflexivity.
Qed.

(** Any other path makes the call raise: the second positional argument of
    [warnings.warn] is a string, not a warning category.  No warning is
    recorded and nothing is returned. *)
Lemma validate_other_raises (s : string) (st : State) :
  lower (suffix (Path s)) <> ".glb" ->
  exists msg,
    _validate_output_path (Some s) st
    = (inl (if String.eqb (name (Path s)) "" then ValueError msg
            else TypeError msg), st).
Proof.
  intros E. apply String.eqb_neq in E.
  unfold _validate_output_path. rewrite E. cbn [negb].
  unfold with_suffix. destruct (String.eqb (name (Path s)) "") eqn:En.
  - eexists. reflexivity.
  - eexists. reflexivity.
Qed.

Example suffix_examples :
  suffix (Path "a/b.tar.GZ") = ".GZ"
  /\ suffix (Path "dir.v2/model") = ""
  /\ suffix (Path ".glb") = ""
  /\ suffix (Path "model.") = ""
  /\ lower ".GLB" = ".glb"
  /\ str (Path "out/model.glb") = "out/model.glb".
Proof. repeat split; reflexivity. Qed.

(** C1, at the output paths [model.obj] (wrong extension) and [model]
    (no extension): [with_suffix] computes [model.glb], but the call to
    [warnings.warn] that should announce it raises [TypeError], so the
    corrected path is never returned and no warning is issued.  The default
    path and a path already ending in [.glb] come back as claimed. *)
Theorem validate_output_path_raises (st : State) :
  _validate_output_path (Some "model.obj") st
  = (inl (TypeError "category must be a Warning subclass, not 'str'"), st)
  /\ _validate_output_path (Some "model") st
     = (inl (TypeError "category must be a Warning subclass, not 'str'"), st)
  /\ with_suffix (Path "model.obj") ".glb" = inr (Path "model.glb")
  /\ with_suffix (Path "model") ".glb" = inr (Path "model.glb")
  /\ _validate_output_path (Some "out/model.GLB") st
     = (inr (Path "out/model.GLB"), st)
  /\ _validate_output_path None st = (inr (Path "output.glb"), st).
Proof. repeat split; reflexivity. Qed.

End OutputPath.

Section MissingColours.
Import Py Conv.
Context `{Collaborators}.

(** When the output path passes validation, a mesh without vertex colours
    gives one [UserWarning], the result [None], and no export. *)
Lemma convert_without_colours (st : State) (input : string)
    (output : option string) (mesh : Mesh) :
  match output with
  | None => True
  | Some s => lower (suffix (Path s)) = ".glb"
  end ->
  trimesh_load input = inr mesh ->
  has_vertex_colors mesh = None ->
  convert input output st
  = (inr None,
     add_warning st
       (Warning UserWarning
          "Input mesh must be an obj file with vertex colors.")).
Proof.
  intros Hout Hload Hcol. unfold convert.
  assert (Hv : exists p, _validate_output_path output st = (inr p, st)).
  { destruct output as [s|]; [|eexists; reflexivity].
    exists (Path s). apply validate_glb, Hout. }
  destruct Hv as (p & Hv).
  unfold mbind at 1. unfold M_bind at 1. rewrite Hv.
  unfold mbind at 1. unfold M_bind at 1. unfold lift at 1. rewrite Hload.
  rewrite Hcol. reflexivity.
Qed.

Example convert_plain_mesh :
  convert (H := Demo.collaborators) "plain.obj" None (Demo.fresh Demo.small)
  = (inr None,
     add_warning (Demo.fresh Demo.small)
       (Warning UserWarning
          "Input mesh must be an obj file with vertex colors.")).
Proof. reflexivity. Qed.

(** C9, at a call whose mesh has no vertex colours and whose output path is
    [out.obj]: the path validation at the top of [convert] raises
    [TypeError] before the mesh is even loaded, so the call does not return
    [None] with a warning. *)
Theorem convert_without_colours_raises (st : State) (input : string) :
  convert input (Some "out.obj") st
  = (inl (TypeError "category must be a Warning subclass, not 'str'"), st).
Proof. reflexivity. Qed.

End MissingColours.

Section GapFilling.
Import Py Conv.
Context `{Collaborators}.

Lemma item2_Some {A} (img : list (list A)) (y x : nat) (a : A) :
  item2 img y x = Some a <-> exists row, img !! y = Some row /\ row !! x = Some a.
Proof.
  unfold item2. destruct (img !! y) as [row|]; cbn.
  - split; [eauto | intros (r & [= <-] & Hr); exact Hr].
  - split; [discriminate | intros (r & Hr & _); discriminate].
Qed.

Lemma item2_fmap {A B} (f : A -> B) (img : list (list A)) (y x : nat) :
  item2 (fmap (M := list) (fmap (M := list) f) img) y x
  = f <$> item2 img y x.
Proof.
  unfold item2. rewrite list_lookup_fmap.
  destruct (img !! y) as [row|]; cbn; [apply list_lookup_fmap | reflexivity].
Qed.

Lemma item2_reverse {A} (img : list (list A)) (y x : nat) :
  (y < length img)%nat ->
  item2 (reverse img) (length img - 1 - y) x = item2 img y x.
Proof.
  intros Hy. unfold item2. rewrite reverse_lookup by lia.
  replace (length img - S (length img - 1 - y))%nat with y by lia.
  reflexivity.
Qed.

Lemma inpaint_texture_run (st : State) :
  _inpaint_texture st
  = (inr tt,
     with_self st
       (set_texture_buffer (self st)
          (reverse (cvtColor_BGR2BGRA (inpainted st))))).
Proof. reflexivity. Qed.

(** After the gap filler every texel of the buffer has coverage 255,
    whatever the inpainting routine returned. *)
Lemma inpaint_texture_alpha (st st' : State) (y x : nat) (t : rgba Z) :
  _inpaint_texture st = (inr tt, st') ->
  item2 (texture_buffer (self st')) y x = Some t ->
  chA t = 255%Z.
Proof.
  rewrite inpaint_texture_run. intros [= <-]. cbn [self with_self
    texture_buffer set_texture_buffer].
  intros Ht. apply item2_Some in Ht. destruct Ht as (row & Hrow & Hx).
  apply list_elem_of_lookup_2 in Hrow. rewrite elem_of_reverse in Hrow.
  unfold cvtColor_BGR2BGRA in Hrow.
  apply list_elem_of_fmap in Hrow. destruct Hrow as (row0 & -> & _).
  rewrite list_lookup_fmap in Hx.
  destruct (row0 !! x) as [px|]; [|discriminate].
  injection Hx as <-. reflexivity.
Qed.

(** C8. [_inpaint_texture] always returns; afterwards every texel of the
    buffer has coverage 255, so none is left with coverage zero, and the
    buffer is the inpainted image with its rows in reverse order.  For an
    inpainting routine that keeps the number of rows and the pixels outside
    the mask, the colour of a covered texel of rasterised row [y] is found
    in row [n - 1 - y]. *)
Theorem inpaint_texture_covered_flipped (st : State) :
  let buf := texture_buffer (self st) in
  let n := length buf in
  length (inpainted st) = n ->
  (forall y x px,
      item2 (cvtColor_BGRA2BGR buf) y x = Some px ->
      item2 (hole_mask buf) y x = Some 0%Z ->
      item2 (inpainted st) y x = Some px) ->
  exists st',
    _inpaint_texture st = (inr tt, st')
    /\ length (texture_buffer (self st')) = n
    /\ (forall y x t, item2 (texture_buffer (self st')) y x = Some t ->
                      chA t <> 0%Z)
    /\ (forall y x, (y < n)%nat ->
          item2 (texture_buffer (self st')) (n - 1 - y) x
          = item2 (cvtColor_BGR2BGRA (inpainted st)) y x)
    /\ (forall y x t, (y < n)%nat ->
          item2 buf y x = Some t -> chA t <> 0%Z ->
          item2 (texture_buffer (self st')) (n - 1 - y) x
          = Some (RGBA (chR t) (chG t) (chB t) 255%Z)).
Proof.
  intros buf n Hlen Hkeep.
  eexists. split; [apply inpaint_texture_run|].
  cbn [self with_self texture_buffer set_texture_buffer].
  assert (Hn : length (cvtColor_BGR2BGRA (inpainted st)) = n)
    by (unfold cvtColor_BGR2BGRA; rewrite length_fmap; exact Hlen).
  assert (Hflip : forall y x, (y < n)%nat ->
    item2 (reverse (cvtColor_BGR2BGRA (inpainted st))) (n - 1 - y) x
    = item2 (cvtColor_BGR2BGRA (inpainted st)) y x).
  { intros y x Hy. rewrite <- Hn. apply item2_reverse. lia. }
  split; [rewrite length_reverse; exact Hn|].
  split.
  { intros y x t Ht.
    rewrite (inpaint_texture_alpha st _ y x t (inpaint_texture_run st) Ht).
    discriminate. }
  split; [exact Hflip|].
  intros y x t Hy Ht Ha. rewrite Hflip by exact Hy.
  unfold cvtColor_BGR2BGRA. rewrite item2_fmap.
  rewrite (Hkeep y x (chR t, chG t, chB t)); [reflexivity| |].
  - unfold cvtColor_BGRA2BGR. rewrite item2_fmap. fold buf. rewrite Ht.
    reflexivity.
  - unfold hole_mask. rewrite item2_fmap. fold buf. rewrite Ht. cbn.
    apply Z.eqb_neq in Ha. rewrite Ha. reflexivity.
Qed.

End GapFilling.

Section GapFillingExample.
Import Py Conv Demo.

(** A 2 x 2 buffer with one covered texel in each row. *)
Lemma inpaint_texture_covered_flipped_witness :
  let st := fresh (set_texture_buffer small
                     [[rgb8 9 8 7 255; rgb8 0 0 0 0];
                      [rgb8 0 0 0 0; rgb8 1 2 3 200]]) in
  exists st',
    _inpaint_texture st = (inr tt, st')
    /\ item2 (texture_buffer (self st')) 0 1 = Some (rgb8 1 2 3 255)
    /\ item2 (texture_buffer (self st')) 1 0 = Some (rgb8 9 8 7 255)
    /\ item2 (texture_buffer (self st')) 0 0 = Some (rgb8 9 8 7 255).
Proof.
  intros st.
  destruct (inpaint_texture_covered_flipped st) as (st' & Hrun & _ & _ & _ & Hc).
  - reflexivity.
  - intros [|[|y]] [|[|x]] px; vm_compute; congruence.
  - exists st'. split; [exact Hrun|].
    split; [apply (Hc 1%nat 1%nat (rgb8 1 2 3 200)); [cbn; lia|reflexivity|discriminate]|].
    split; [apply (Hc 0%nat 0%nat (rgb8 9 8 7 255)); [cbn; lia|reflexivity|discriminate]|].
    rewrite inpaint_texture_run in Hrun. injection Hrun as <-.
    reflexivity.
Defined.

End GapFillingExample.

Section Rasteriser.
Import Utils Py Conv RasterSpec.

Lemma square_lookup (n : Z) (buf : list (list (rgba Z))) (i : nat) row :
  square n buf -> buf !! i = Some row -> Z.of_nat (length row) = n.
Proof.
  intros [_ Hrows] Hi. rewrite Forall_forall in Hrows.
  apply Hrows. eapply list_elem_of_lookup_2, Hi.
Qed.

Lemma norm_index_in (n : nat) (i : Z) :
  (0 <= i < Z.of_nat n)%Z -> norm_index n i = inr (Z.to_nat i).
Proof.
  intros Hi. unfold norm_index.
  destruct (Z.leb_spec 0 i); [|lia].
  destruct (Z.ltb_spec i (Z.of_nat n)); [reflexivity|lia].
Qed.

(** A write inside a square buffer succeeds, keeps the shape and changes
    exactly the addressed texel. *)
Lemma setitem_in (n : Z) (buf : list (list (rgba Z))) (y x : Z) (t : rgba Z) :
  square n buf -> (0 <= y < n)%Z -> (0 <= x < n)%Z ->
  exists buf',
    setitem buf y x t = inr buf'
    /\ square n buf'
    /\ forall y' x', (0 <= y')%Z -> (0 <= x')%Z ->
         texel_at buf' y' x'
         = if decide (y' = y /\ x' = x) then Some t else texel_at buf y' x'.
Proof.
  intros Hsq Hy Hx. pose proof Hsq as [Hlen Hrows].
  unfold setitem. rewrite norm_index_in by lia. cbn [mbind res_bind].
  destruct (buf !! Z.to_nat y) as [row|] eqn:Hrow.
  2:{ apply lookup_ge_None in Hrow. lia. }
  unfold getitem. rewrite Hrow. cbn [mbind res_bind mret res_ret].
  pose proof (square_lookup _ _ _ _ Hsq Hrow) as Hrl.
  rewrite norm_index_in by lia. cbn [mbind res_bind mret res_ret].
  eexists. split; [reflexivity|]. split.
  - split; [rewrite length_insert; exact Hlen|].
    apply Forall_insert; [exact Hrows|]. rewrite length_insert. exact Hrl.
  - intros y' x' Hy' Hx'. unfold texel_at, item2.
    destruct (decide (y' = y /\ x' = x)) as [[-> ->]|Hne].
    + rewrite list_lookup_insert_eq by (apply lookup_lt_is_Some; eauto).
      cbn. apply list_lookup_insert_eq. lia.
    + destruct (decide (Z.to_nat y' = Z.to_nat y)) as [Ey|Ey].
      * rewrite Ey.
        rewrite list_lookup_insert_eq by (apply lookup_lt_is_Some; eauto).
        rewrite Hrow. cbn. apply list_lookup_insert_ne.
        intros Ex. apply Hne. split; lia.
      * rewrite list_lookup_insert_ne by congruence. reflexivity.
Qed.

Lemma trunc_floor (q : Q) : 0 <= q -> trunc q = Qfloor q.
Proof.
  intros Hq. destruct q as [a d]. unfold trunc, Qfloor. cbn [Qnum Qden].
  apply Z.quot_div_nonneg; [|lia].
  unfold Qle in Hq. cbn in Hq. lia.
Qed.

Lemma to_uint8_floor (color : rgba Q) :
  to_uint8 color = rgba_map (fun q => Qfloor (clip q 0 255)) color.
Proof.
  unfold to_uint8, rgba_map.
  f_equal; apply trunc_floor; apply clip_range; lra.
Qed.

(** The float64 interpolation returns a colour on every input: the only
    divisions are by a [denom] that passed the test [abs(denom) < 1e-8]
    and is therefore not zero. *)
Lemma float64_interpolate_finite (v0 v1 v2 : Z * Z) (c0 c1 c2 : rgba Z)
    (p : point) :
  is_Some (Float64.barycentric_interpolate v0 v1 v2 c0 c1 c2 p).
Proof.
  unfold Float64.barycentric_interpolate.
  set (denom := (_ * _ - _ * _)%Z).
  destruct (Qltb (Qabs (inject_Z denom)) Float64.eps) eqn:E; [eauto|].
  assert (Hnz : (denom =? 0)%Z = false).
  { apply Z.eqb_neq. intros Hz. rewrite Hz in E. vm_compute in E.
    discriminate. }
  unfold Float64.fdiv. rewrite Hnz. cbn [mbind option_bind]. eauto.
Qed.

Section OneTriangle.
Variable n : Z.
Variables a b c : Z * Z.
Variables c0 c1 c2 : rgba Z.

(** One pass through the body of the [x] loop. *)
Lemma texel_body_spec (buf : list (list (rgba Z))) (y x : Z) :
  square n buf -> (0 <= y < n)%Z -> (0 <= x < n)%Z ->
  exists buf',
    texel_body a b c c0 c1 c2 y x buf = inr buf'
    /\ square n buf'
    /\ forall y' x', (0 <= y')%Z -> (0 <= x')%Z ->
         texel_at buf' y' x'
         = overlay (if decide (y' = y /\ x' = x)
                    then centre_texel a b c c0 c1 c2 y' x' else None)
             (texel_at buf y' x').
Proof.
  intros Hsq Hy Hx. unfold texel_body. fold (centre y x).
  destruct (Float64.is_point_in_triangle (centre y x) (as_point a)
              (as_point b) (as_point c)) eqn:Hin.
  - destruct (float64_interpolate_finite a b c c0 c1 c2 (centre y x))
      as [color Hcol].
    rewrite Hcol.
    destruct (setitem_in n buf y x (to_uint8 color) Hsq Hy Hx)
      as (buf' & Hset & Hsq' & Hat).
    exists buf'. split; [exact Hset|]. split; [exact Hsq'|].
    intros y' x' Hy' Hx'. rewrite Hat by assumption.
    destruct (decide (y' = y /\ x' = x)) as [[-> ->]|Hne]; [|reflexivity].
    unfold centre_texel. rewrite Hin, Hcol. cbn.
    rewrite to_uint8_floor. reflexivity.
  - exists buf. split; [reflexivity|]. split; [exact Hsq|].
    intros y' x' _ _.
    destruct (decide (y' = y /\ x' = x)) as [[-> ->]|Hne]; [|reflexivity].
    unfold centre_texel. rewrite Hin. reflexivity.
Qed.

(** The loop over [x] for a fixed row [y]. *)
Lemma row_loop_spec (y : Z) (xs : list Z) :
  (0 <= y < n)%Z -> Forall (fun x => (0 <= x < n)%Z) xs ->
  forall buf, square n buf ->
  exists buf',
    for_ xs (texel_body a b c c0 c1 c2 y) buf = inr buf'
    /\ square n buf'
    /\ forall y' x', (0 <= y')%Z -> (0 <= x')%Z ->
         texel_at buf' y' x'
         = overlay (if decide (y' = y /\ x' ∈ xs)
                    then centre_texel a b c c0 c1 c2 y' x' else None)
             (texel_at buf y' x').
Proof.
  intros Hy Hxs. induction Hxs as [|x xs Hx Hxs IH]; intros buf Hsq.
  - exists buf. split; [reflexivity|]. split; [exact Hsq|].
    intros y' x' _ _. destruct (decide _) as [[_ Hin]|_]; [|reflexivity].
    inversion Hin.
  - destruct (texel_body_spec buf y x Hsq Hy Hx) as (b1 & E1 & Hsq1 & H1).
    destruct (IH b1 Hsq1) as (b2 & E2 & Hsq2 & H2).
    exists b2. split; [cbn [for_]; rewrite E1; exact E2|].
    split; [exact Hsq2|].
    intros y' x' Hy' Hx'. rewrite H2, H1 by assumption.
    repeat destruct (decide _); try reflexivity;
      try (destruct (centre_texel a b c c0 c1 c2 y' x'); reflexivity);
      exfalso; rewrite ?elem_of_cons in *; intuition congruence.
Qed.

(** The two nested loops. *)
Lemma box_loop_spec (ys xs : list Z) :
  Forall (fun y => (0 <= y < n)%Z) ys ->
  Forall (fun x => (0 <= x < n)%Z) xs ->
  forall buf, square n buf ->
  exists buf',
    for_ ys (fun y => for_ xs (texel_body a b c c0 c1 c2 y)) buf = inr buf'
    /\ square n buf'
    /\ forall y' x', (0 <= y')%Z -> (0 <= x')%Z ->
         texel_at buf' y' x'
         = overlay (if decide (y' ∈ ys /\ x' ∈ xs)
                    then centre_texel a b c c0 c1 c2 y' x' else None)
             (texel_at buf y' x').
Proof.
  intros Hys Hxs. induction Hys as [|y ys Hy Hys IH]; intros buf Hsq.
  - exists buf. split; [reflexivity|]. split; [exact Hsq|].
    intros y' x' _ _. destruct (decide _) as [[Hin _]|_]; [|reflexivity].
    inversion Hin.
  - destruct (row_loop_spec y xs Hy Hxs buf Hsq) as (b1 & E1 & Hsq1 & H1).
    destruct (IH b1 Hsq1) as (b2 & E2 & Hsq2 & H2).
    exists b2. split; [cbn [for_]; rewrite E1; exact E2|].
    split; [exact Hsq2|].
    intros y' x' Hy' Hx'. rewrite H2, H1 by assumption.
    repeat destruct (decide _); try reflexivity;
      try (destruct (centre_texel a b c c0 c1 c2 y' x'); reflexivity);
      exfalso; rewrite ?elem_of_cons in *; intuition congruence.
Qed.

(** [np.floor] and [np.ceil] of integers change nothing: the box of the
    code is the clamped bounding box. *)
Lemma bbox_box : bbox n a b c = box n a b c.
Proof. unfold bbox, box. rewrite !Qfloor_Z, !Qceiling_Z. reflexivity. Qed.

Lemma in_box_range (y x : Z) :
  in_box (box n a b c) y x = true ->
  (0 <= y < n)%Z /\ (0 <= x < n)%Z.
Proof. unfold in_box, box. cbn. lia. Qed.

(** The loops of one face, over its clamped bounding box. *)
Lemma fill_box_spec (buf : list (list (rgba Z))) :
  square n buf ->
  exists buf',
    fill_box a b c c0 c1 c2 (box n a b c) buf = inr buf'
    /\ square n buf'
    /\ forall y x, (0 <= y)%Z -> (0 <= x)%Z ->
         texel_at buf' y x
         = overlay (triangle_texel a b c c0 c1 c2 (box n a b c) y x)
             (texel_at buf y x).
Proof.
  intros Hsq. unfold fill_box, box, range.
  set (min_x := Z.max (Z.min (Z.min a.1 b.1) c.1) 0).
  set (max_x := Z.min (Z.max (Z.max a.1 b.1) c.1) (n - 1)).
  set (min_y := Z.max (Z.min (Z.min a.2 b.2) c.2) 0).
  set (max_y := Z.min (Z.max (Z.max a.2 b.2) c.2) (n - 1)).
  destruct (box_loop_spec (seqZ min_y (max_y + 1 - min_y))
              (seqZ min_x (max_x + 1 - min_x))) with (buf := buf)
    as (buf' & E & Hsq' & Hat); [| |exact Hsq|].
  - apply Forall_forall. intros y Hy. apply elem_of_seqZ in Hy. lia.
  - apply Forall_forall. intros x Hx. apply elem_of_seqZ in Hx. lia.
  - exists buf'. split; [exact E|]. split; [exact Hsq'|].
    intros y x Hy Hx. rewrite Hat by assumption.
    unfold triangle_texel, in_box, box.
    fold min_x max_x min_y max_y.
    destruct (decide _) as [[Hy' Hx']|Hne].
    + apply elem_of_seqZ in Hy', Hx'.
      replace ((min_y <=? y) && (y <=? max_y) && (min_x <=? x)
               && (x <=? max_x))%Z with true by (symmetry; lia).
      reflexivity.
    + replace ((min_y <=? y) && (y <=? max_y) && (min_x <=? x)
               && (x <=? max_x))%Z with false; [reflexivity|].
      symmetry. apply not_true_is_false. intros Hb. apply Hne.
      rewrite !elem_of_seqZ. lia.
Qed.

End OneTriangle.





Lemma getitem_Some {A} (l : list A) (i : nat) (x : A) :
  l !! i = Some x -> getitem l i = inr x.
Proof. intros E. unfold getitem. rewrite E. reflexivity. Qed.



End Rasteriser.

Section RasteriserExample.
Import Utils Py Conv RasterSpec.


(** The product is a float32: the float32 nearest to 0.7 is
    11744051 / 2^24, just below 0.7, and its product with 10 rounds to 7, so
    the mapped coordinate is 7 although the exact product lies below 7. *)
Example to_buffer_coords_float32 :
  to_buffer_coords 11 (11744051 # 16777216, 0) = (7, 0)%Z
  /\ mapped 11 (11744051 # 16777216, 0) = (7, 0)%Z
  /\ Float32.round (7 # 10) == 11744051 # 16777216
  /\ Qfloor ((11744051 # 16777216) * 10) = 6%Z.
Proof. repeat split; vm_compute; reflexivity. Qed.

(** The colour is a float64: in the white triangle with corners (0, 0),
    (1, 3), (4, 3) the centre of texel (0, 0) gets weights whose rounded
    sum falls just short of one, and the texel is written as 254. *)
Example white_triangle_texel :
  Float64.barycentric_interpolate (0, 0)%Z (1, 3)%Z (4, 3)%Z
    (rgb8 255 255 255 255) (rgb8 255 255 255 255) (rgb8 255 255 255 255)
    (centre 0 0)
  = Some (RGBA (8972014882652159 # 35184372088832)
               (8972014882652159 # 35184372088832)
               (8972014882652159 # 35184372088832)
               (8972014882652159 # 35184372088832))
  /\ centre_texel (0, 0)%Z (1, 3)%Z (4, 3)%Z
       (rgb8 255 255 255 255) (rgb8 255 255 255 255) (rgb8 255 255 255 255)
       0 0
     = Some (rgb8 254 254 254 254)
  /\ exists buf',
       texel_body (0, 0)%Z (1, 3)%Z (4, 3)%Z
         (rgb8 255 255 255 255) (rgb8 255 255 255 255) (rgb8 255 255 255 255)
         0 0 (zeros 5) = inr buf'
       /\ texel_at buf' 0 0 = Some (rgb8 254 254 254 254).
Proof.
  split; [vm_compute; reflexivity|]. split; [vm_compute; reflexivity|].
  eexists. split; vm_compute; reflexivity.
Qed.

End RasteriserExample.

Section BufferLifecycle.
Import Py Conv.
Context `{Collaborators}.

(** Construction allocates the zero-filled buffer, of side
    [texture_size * upscale_factor]. *)
Lemma init_buffer (ts uf ms br : Z) (c : Converter) :
  __init__ ts uf ms br = inr c ->
  buffer_size c = (ts * uf)%Z /\ texture_buffer c = zeros (ts * uf).
Proof.
  unfold __init__, np_zeros. destruct (ts * uf <? 0)%Z; [discriminate|].
  destruct (allocation_error (ts * uf)); [discriminate|].
  intros [= <-]. split; reflexivity.
Qed.

(** The later stages of a bake leave the buffer as the gap filler made it. *)
Lemma filter_keeps_buffer (st st' : State) :
  _filter_and_resize_texture st = (inr tt, st') ->
  texture_buffer (self st') = texture_buffer (self st).
Proof.
  unfold _filter_and_resize_texture, mbind, M_bind, get_self.
  destruct (texture (self st)); [|discriminate].
  intros [= <-]. reflexivity.
Qed.

(** [convert] never allocates: a bake that completes leaves in the
    converter the inpainted, flipped buffer, in which every texel has
    coverage 255, and that is the buffer the next call starts from. *)
Lemma convert_leaves_buffer (st st' : State) (input : string)
    (output : option string) (s : string) :
  convert input output st = (inr (Some s), st') ->
  forall y x t, item2 (texture_buffer (self st')) y x = Some t ->
                chA t = 255%Z.
Proof.
  unfold convert. unfold mbind at 1, M_bind at 1.
  destruct (_validate_output_path output st) as [[e|p] s1]; [discriminate|].
  unfold mbind at 1, M_bind at 1, lift at 1.
  destruct (trimesh_load input) as [e|mesh]; [discriminate|].
  destruct (has_vertex_colors mesh) as [vc|].
  2:{ unfold mbind, M_bind, warnings_warn. cbn. discriminate. }
  destruct (xatlas_parametrize (vertices mesh) (faces mesh))
    as [[vmapping indices] uvs].
  unfold mbind at 1, M_bind at 1, lift at 1.
  destruct (take (vertices mesh) vmapping) as [e|vs]; [discriminate|].
  unfold mbind at 1, M_bind at 1, lift at 1.
  destruct (take vc vmapping) as [e|cols]; [discriminate|].
  unfold mbind at 1, M_bind at 1, get_self at 1.
  unfold mbind at 1, M_bind at 1, lift at 1.
  destruct (rasterize _ _ _ _ _) as [e|buf]; [discriminate|].
  unfold mbind at 1, M_bind at 1, put_self at 1.
  set (st1 := with_self s1 _).
  unfold mbind at 1, M_bind at 1. rewrite inpaint_texture_run.
  set (st2 := with_self st1 _).
  unfold mbind at 1, M_bind at 1, get_self at 1.
  unfold mbind at 1, M_bind at 1, put_self at 1.
  set (st3 := with_self st2 _).
  unfold mbind at 1, M_bind at 1.
  destruct (_filter_and_resize_texture st3) as [[e|[]] st4] eqn:Hf;
    [discriminate|].
  apply filter_keeps_buffer in Hf.
  unfold mbind at 1, M_bind at 1, get_self at 1.
  destruct (texture (self st4)) as [tex|]; [|discriminate].
  unfold mbind, M_bind, mesh_export, print, mret, M_ret.
  intros [= _ <-]. cbn [self texture_buffer]. rewrite Hf.
  intros y x t. subst st3. cbn [self with_self texture_buffer set_texture].
  apply (inpaint_texture_alpha st1 st2 y x t).
  apply inpaint_texture_run.
Qed.

End BufferLifecycle.

Section BufferLifecycleExample.
Import Py Conv Demo.

(** C2, on two calls of one converter with a 3 x 3 buffer.  The first call
    starts from the zero-filled buffer of the constructor.  [convert] does
    not allocate, so the second call starts from the buffer the first one
    left, all red with coverage 255: the blue mesh baked second keeps the
    red texels of the first, where a fresh converter gives a blue texture. *)
Theorem convert_reuses_buffer :
  exists st1 st2 st2',
    __init__ 3 1 3 1 = inr small3
    /\ texture_buffer (self (fresh small3)) = zeros 3
    /\ convert "red.obj" None (fresh small3) = (inr (Some "output.glb"), st1)
    /\ texture_buffer (self st1) = red3
    /\ texture_buffer (self st1) <> zeros (3 * 1)
    /\ convert "blue.obj" None st1 = (inr (Some "output.glb"), st2)
    /\ convert "blue.obj" None (fresh small3)
       = (inr (Some "output.glb"), st2')
    /\ texture (self st2)
       = Some [[rgb8 255 0 0 255; rgb8 255 0 0 255; rgb8 255 0 0 255];
               [rgb8 255 0 0 255; rgb8 255 0 0 255; rgb8 255 0 0 255];
               [rgb8 0 0 255 255; rgb8 255 0 0 255; rgb8 255 0 0 255]]
    /\ texture (self st2')
       = Some (replicate 3 (replicate 3 (rgb8 0 0 255 255))).
Proof.
  eexists _, _, _.
  split; [reflexivity|]. split; [reflexivity|].
  split; [vm_compute; reflexivity|].
  split; [reflexivity|].
  split; [discriminate|].
  split; [vm_compute; reflexivity|].
  split; [vm_compute; reflexivity|].
  split; reflexivity.
Qed.

End BufferLifecycleExample.

Section PathValidation.
Import Py Conv.

Lemma validate_output_path_result (output : option string) (st : State) :
  snd (_validate_output_path output st) = st
  /\ forall p, fst (_validate_output_path output st) = inr p ->
       lower (suffix p) = ".glb".
Proof.
  destruct output as [s|].
  - destruct (String.eqb (lower (suffix (Path s))) ".glb") eqn:E.
    + apply String.eqb_eq in E. rewrite (validate_glb s st E). cbn.
      split; [reflexivity|]. intros p [= <-]. exact E.
    + apply String.eqb_neq in E.
      destruct (validate_other_raises s st E) as (msg & Hr). rewrite Hr.
      cbn. split; [reflexivity|]. discriminate.
  - split; [reflexivity|]. intros p [= <-]. reflexivity.
Qed.

(** [_validate_output_path] never issues a warning and never touches the
    converter, whatever the path; and a path it returns always has the
    suffix [.glb] up to letter case. *)
Theorem validate_output_path_silent (output : option string) (st : State) :
  snd (_validate_output_path output st) = st
  /\ forall p, fst (_validate_output_path output st) = inr p ->
       lower (suffix p) = ".glb".
Proof. apply validate_output_path_result. Qed.

End PathValidation.

Section ConvertRuns.
Import Py Conv.
Context `{Collaborators}.

Lemma filter_frame (st : State) :
  config (self (snd (_filter_and_resize_texture st))) = config (self st)
  /\ texture_buffer (self (snd (_filter_and_resize_texture st)))
     = texture_buffer (self st)
  /\ warnings_log (snd (_filter_and_resize_texture st)) = warnings_log st
  /\ exported (snd (_filter_and_resize_texture st)) = exported st
  /\ stdout (snd (_filter_and_resize_texture st)) = stdout st.
Proof.
  unfold _filter_and_resize_texture, mbind, M_bind, get_self.
  destruct (texture (self st)); cbn; repeat split; reflexivity.
Qed.

(** Whatever [convert] does (return a path, return [None], raise), it
    leaves the five parameters of the converter as the constructor set
    them. *)
Theorem convert_keeps_config (input : string) (output : option string)
    (st : State) :
  config (self (snd (convert input output st))) = config (self st).
Proof.
  unfold convert. unfold mbind at 1, M_bind at 1.
  pose proof (validate_output_path_result output st) as [Hs _].
  destruct (_validate_output_path output st) as [[e|p] s1];
    cbn in Hs; subst s1; [reflexivity|].
  unfold mbind at 1, M_bind at 1, lift at 1.
  destruct (trimesh_load input) as [e|mesh]; [reflexivity|].
  destruct (has_vertex_colors mesh) as [vc|]; [|reflexivity].
  destruct (xatlas_parametrize (vertices mesh) (faces mesh))
    as [[vmapping indices] uvs].
  unfold mbind at 1, M_bind at 1, lift at 1.
  destruct (take (vertices mesh) vmapping) as [e|vs]; [reflexivity|].
  unfold mbind at 1, M_bind at 1, lift at 1.
  destruct (take vc vmapping) as [e|cols]; [reflexivity|].
  unfold mbind at 1, M_bind at 1, get_self at 1.
  unfold mbind at 1, M_bind at 1, lift at 1.
  destruct (rasterize _ _ _ _ _) as [e|buf]; [reflexivity|].
  unfold mbind at 1, M_bind at 1, put_self at 1.
  set (st1 := with_self st _).
  unfold mbind at 1, M_bind at 1. rewrite inpaint_texture_run.
  set (st2 := with_self st1 _).
  unfold mbind at 1, M_bind at 1, get_self at 1.
  unfold mbind at 1, M_bind at 1, put_self at 1.
  set (st3 := with_self st2 _).
  unfold mbind at 1, M_bind at 1.
  pose proof (filter_frame st3) as (Hc & _).
  destruct (_filter_and_resize_texture st3) as [[e|[]] st4];
    cbn [snd] in Hc; [exact Hc|].
  unfold mbind at 1, M_bind at 1, get_self at 1.
  destruct (texture (self st4)) as [tex|]; exact Hc.
Qed.

(** A call of [convert] that returns a path.  The path is the validated
    output path and ends in [.glb] up to letter case; no warning was issued;
    one line was printed; exactly one asset was exported, under that path,
    with the faces and UVs of the atlas and, as texture, the final buffer
    (the inpainted, flipped rasterisation) passed through the median
    filter, then the blur, then the resize to [texture_size]. *)
Theorem convert_completed (input : string) (output : option string)
    (st st' : State) (s : string) :
  convert input output st = (inr (Some s), st') ->
  exists p mesh e,
    _validate_output_path output st = (inr p, st)
    /\ s = str p /\ lower (suffix p) = ".glb"
    /\ trimesh_load input = inr mesh
    /\ warnings_log st' = warnings_log st
    /\ stdout st' = stdout st ++ [("Processed mesh saved to " ++ s)%string]
    /\ exported st' = exported st ++ [e]
    /\ ex_path e = s
    /\ ex_faces e = (xatlas_parametrize (vertices mesh) (faces mesh)).1.2
    /\ ex_uv e = (xatlas_parametrize (vertices mesh) (faces mesh)).2
    /\ ex_texture e
       = resize_lanczos (texture_size (self st))
           (GaussianBlur (blur_radius (self st))
              (MedianFilter (median_size (self st))
                 (texture_buffer (self st'))))
    /\ texture (self st') = Some (ex_texture e).
Proof.
  unfold convert. unfold mbind at 1, M_bind at 1.
  pose proof (validate_output_path_result output st) as [Hs Hsfx].
  destruct (_validate_output_path output st) as [[e|p] s1] eqn:Hv;
    cbn in Hs; subst s1; [discriminate|].
  specialize (Hsfx p eq_refl).
  unfold mbind at 1, M_bind at 1, lift at 1.
  destruct (trimesh_load input) as [e|mesh]; [discriminate|].
  destruct (has_vertex_colors mesh) as [vc|].
  2:{ unfold mbind, M_bind, warnings_warn. cbn. discriminate. }
  destruct (xatlas_parametrize (vertices mesh) (faces mesh))
    as [[vmapping indices] uvs] eqn:Hx.
  unfold mbind at 1, M_bind at 1, lift at 1.
  destruct (take (vertices mesh) vmapping) as [e|vs]; [discriminate|].
  unfold mbind at 1, M_bind at 1, lift at 1.
  destruct (take vc vmapping) as [e|cols]; [discriminate|].
  unfold mbind at 1, M_bind at 1, get_self at 1.
  unfold mbind at 1, M_bind at 1, lift at 1.
  destruct (rasterize _ _ _ _ _) as [e|buf]; [discriminate|].
  unfold mbind at 1, M_bind at 1, put_self at 1.
  set (st1 := with_self st _).
  unfold mbind at 1, M_bind at 1. rewrite inpaint_texture_run.
  set (st2 := with_self st1 _).
  unfold mbind at 1, M_bind at 1, get_self at 1.
  unfold mbind at 1, M_bind at 1, put_self at 1.
  set (st3 := with_self st2 _).
  unfold mbind at 1, M_bind at 1.
  unfold _filter_and_resize_texture, mbind at 1, M_bind at 1, get_self at 1.
  cbn [self st3 with_self texture set_texture put_self].
  unfold mbind at 1, M_bind at 1, get_self at 1.
  cbn [self with_self texture set_texture].
  unfold mbind, M_bind, mesh_export, print, mret, M_ret.
  cbn [self with_self warnings_log exported stdout].
  intros [= <- <-].
  eexists p, mesh, _.
  split; [reflexivity|]. split; [reflexivity|]. split; [exact Hsfx|].
  split; [reflexivity|]. rewrite Hx.
  cbn [self warnings_log stdout exported ex_path ex_faces ex_uv ex_texture
       texture texture_buffer set_texture_buffer set_texture with_self
       texture_size blur_radius median_size st2 st1 fst snd].
  repeat split; reflexivity.
Qed.

End ConvertRuns.

Section RasteriserBounds.
Import Utils Py Conv RasterSpec.

(** The body of the face loop for arbitrary UVs. *)
Lemma face_body_run (n : Z) (uvs : list (Q * Q)) (colours : list (rgba Z))
    (f : nat * nat * nat) (buf : list (list (rgba Z))) :
  valid_face uvs colours f -> square n buf ->
  exists buf',
    face_body n uvs colours f buf = inr buf'
    /\ square n buf'
    /\ forall y x, (0 <= y)%Z -> (0 <= x)%Z ->
         texel_at buf' y x
         = overlay (face_write n uvs colours f y x) (texel_at buf y x).
Proof.
  intros Hf Hsq. destruct f as [[i0 i1] i2].
  destruct Hf as [(U0 & U1 & U2) (K0 & K1 & K2)].
  apply lookup_lt_is_Some in U0, U1, U2, K0, K1, K2.
  destruct U0 as [uv0 U0], U1 as [uv1 U1], U2 as [uv2 U2].
  destruct K0 as [k0 K0], K1 as [k1 K1], K2 as [k2 K2].
  unfold face_body, face_write.
  rewrite (getitem_Some _ _ _ U0), (getitem_Some _ _ _ U1),
    (getitem_Some _ _ _ U2), (getitem_Some _ _ _ K0),
    (getitem_Some _ _ _ K1), (getitem_Some _ _ _ K2).
  cbn [mbind res_bind]. rewrite U0, U1, U2, K0, K1, K2.
  rewrite bbox_box. apply fill_box_spec, Hsq.
Qed.

Lemma rasterize_run (n : Z) (uvs : list (Q * Q)) (colours : list (rgba Z))
    (fs : list (nat * nat * nat)) :
  Forall (valid_face uvs colours) fs ->
  forall buf, square n buf ->
  exists buf',
    rasterize n uvs colours fs buf = inr buf'
    /\ square n buf'
    /\ forall y x, (0 <= y)%Z -> (0 <= x)%Z ->
         texel_at buf' y x
         = foldl (fun acc f => overlay (face_write n uvs colours f y x) acc)
             (texel_at buf y x) fs.
Proof.
  induction 1 as [|f fs Hf Hfs IH]; intros buf Hsq.
  - exists buf. split; [reflexivity|]. split; [exact Hsq|].
    intros; reflexivity.
  - destruct (face_body_run n uvs colours f buf Hf Hsq)
      as (b1 & E1 & Hsq1 & H1).
    destruct (IH b1 Hsq1) as (b2 & E2 & Hsq2 & H2).
    exists b2. split.
    { unfold rasterize in *. cbn [for_]. rewrite E1. exact E2. }
    split; [exact Hsq2|].
    intros y x Hy Hx. rewrite H2, H1 by assumption. reflexivity.
Qed.

(** UVs may lie outside the unit square.  For buffer sides up to 4096 and
    UV coordinates of magnitude up to 2 (where the float32 product, its cast
    and the [int64] products all stay in range) and faces that index the
    UV and colour tables, the face loop never indexes outside the buffer: it
    completes, the buffer keeps its shape, and a texel that no face writes
    keeps its value. *)
Theorem rasterize_in_bounds (n : Z) (uvs : list (Q * Q))
    (colours : list (rgba Z)) (fs : list (nat * nat * nat))
    (buf : list (list (rgba Z))) :
  (n <= 4096)%Z ->
  Forall (fun uv : Q * Q => Qabs uv.1 <= 2 /\ Qabs uv.2 <= 2) uvs ->
  Forall (valid_face uvs colours) fs -> square n buf ->
  exists buf',
    rasterize n uvs colours fs buf = inr buf'
    /\ square n buf'
    /\ forall y x, (0 <= y)%Z -> (0 <= x)%Z ->
         Forall (fun f => face_write n uvs colours f y x = None) fs ->
         texel_at buf' y x = texel_at buf y x.
Proof.
  intros _ _ Hfs Hsq.
  destruct (rasterize_run n uvs colours fs Hfs buf Hsq)
    as (buf' & E & Hsq' & Hat).
  exists buf'. split; [exact E|]. split; [exact Hsq'|].
  intros y x Hy Hx Hnone. rewrite Hat by assumption.
  generalize (texel_at buf y x). clear -Hnone.
  induction Hnone as [|f fs Hf _ IH]; intros old; [reflexivity|].
  cbn [foldl]. rewrite Hf. apply IH.
Qed.

Lemma rasterize_in_bounds_witness :
  exists buf',
    rasterize 2 [(-2, 3 # 2); (5 # 4, 0); (0, 2)]
      [rgb8 1 2 3 255; rgb8 1 2 3 255; rgb8 1 2 3 255]
      [(0, 1, 2)%nat] (zeros 2) = inr buf'
    /\ square 2 buf'.
Proof.
  destruct (rasterize_in_bounds 2 [(-2, 3 # 2); (5 # 4, 0); (0, 2)]
      [rgb8 1 2 3 255; rgb8 1 2 3 255; rgb8 1 2 3 255]
      [(0, 1, 2)%nat] (zeros 2)) as (buf' & E & Hsq & _).
  - lia.
  - repeat constructor; vm_compute; discriminate.
  - repeat constructor; cbn; lia.
  - split; [reflexivity|]. repeat constructor.
  - exists buf'. split; assumption.
Defined.

(** A face with an index outside the UV or colour table stops the loop with
    [IndexError]. *)
Theorem rasterize_bad_index (n : Z) (uvs : list (Q * Q))
    (colours : list (rgba Z)) (fs1 fs2 : list (nat * nat * nat))
    (f : nat * nat * nat) (buf : list (list (rgba Z))) :
  Forall (valid_face uvs colours) fs1 -> ~ valid_face uvs colours f ->
  square n buf ->
  exists msg,
    rasterize n uvs colours (fs1 ++ f :: fs2) buf = inl (IndexError msg).
Proof.
  intros Hfs Hbad Hsq.
  destruct (rasterize_run n uvs colours fs1 Hfs buf Hsq)
    as (b1 & E1 & _ & _).
  assert (Happ : forall (l1 l2 : list (nat * nat * nat)) b b',
            for_ l1 (face_body n uvs colours) b = inr b' ->
            for_ (l1 ++ l2) (face_body n uvs colours) b
            = for_ l2 (face_body n uvs colours) b').
  { induction l1 as [|g l1 IH]; intros l2 b b' Hb.
    - injection Hb as <-. reflexivity.
    - cbn [for_ app] in *.
      destruct (face_body n uvs colours g b) as [e|b0]; [discriminate|].
      cbn [mbind res_bind] in *. apply IH, Hb. }
  unfold rasterize in *. rewrite (Happ _ _ _ _ E1). cbn [for_].
  assert (Hf : exists msg, face_body n uvs colours f b1 = inl (IndexError msg)).
  { destruct f as [[i0 i1] i2]. unfold face_body, getitem.
    destruct (uvs !! i0) eqn:U0; [|eexists; reflexivity].
    destruct (uvs !! i1) eqn:U1; [|eexists; reflexivity].
    destruct (uvs !! i2) eqn:U2; [|eexists; reflexivity].
    destruct (colours !! i0) eqn:K0; [|eexists; reflexivity].
    destruct (colours !! i1) eqn:K1; [|eexists; reflexivity].
    destruct (colours !! i2) eqn:K2; [|eexists; reflexivity].
    exfalso. apply Hbad. unfold valid_face.
    repeat split; apply lookup_lt_is_Some; eauto. }
  destruct Hf as (msg & Hf). exists msg. rewrite Hf. reflexivity.
Qed.

Lemma rasterize_bad_index_witness :
  exists msg,
    rasterize 2 [(0, 0); (1, 0); (0, 1)]
      [rgb8 1 2 3 255; rgb8 1 2 3 255; rgb8 1 2 3 255]
      ([(0, 1, 2)%nat] ++ (0, 1, 3)%nat :: []) (zeros 2)
    = inl (IndexError msg).
Proof.
  apply rasterize_bad_index.
  - repeat constructor; cbn; lia.
  - cbn. lia.
  - split; [reflexivity|]. repeat constructor.
Defined.

End RasteriserBounds.

Section TexelRange.
Import Utils Py Conv RasterSpec.

Lemma floor_clip_uint8 (q : Q) : is_uint8 (Qfloor (clip q 0 255)).
Proof.
  pose proof (clip_range q 0 255 ltac:(lra)) as [H0 H1].
  apply Qfloor_resp_le in H0, H1.
  change (Qfloor 0) with 0%Z in H0. change (Qfloor 255) with 255%Z in H1.
  unfold is_uint8. lia.
Qed.

(** Whatever the colour, the cast of line 84 yields [uint8] channels. *)
Lemma to_uint8_range (color : rgba Q) : rgba_all is_uint8 (to_uint8 color).
Proof.
  rewrite to_uint8_floor. unfold rgba_all, rgba_map; cbn [chR chG chB chA].
  repeat split; apply floor_clip_uint8.
Qed.

Lemma face_write_uint8 (n : Z) (uvs : list (Q * Q)) (colours : list (rgba Z))
    (f : nat * nat * nat) (y x : Z) (t : rgba Z) :
  face_write n uvs colours f y x = Some t -> rgba_all is_uint8 t.
Proof.
  destruct f as [[i0 i1] i2]. unfold face_write.
  destruct (uvs !! i0); [|discriminate]. destruct (uvs !! i1); [|discriminate].
  destruct (uvs !! i2); [|discriminate].
  destruct (colours !! i0); [|discriminate].
  destruct (colours !! i1); [|discriminate].
  destruct (colours !! i2); [|discriminate].
  unfold triangle_texel, centre_texel.
  destruct (in_box _ _ _); [|discriminate].
  destruct (Float64.is_point_in_triangle _ _ _ _); [|discriminate].
  destruct (Float64.barycentric_interpolate _ _ _ _ _ _ _) as [color|];
    [|discriminate].
  cbn. intros [= <-]. rewrite <- to_uint8_floor. apply to_uint8_range.
Qed.

(** The face loop keeps every channel of every texel a [uint8] value, for
    any vertex colours and any UVs: what it writes is clamped to [0, 255]
    before the cast. *)
Theorem rasterize_keeps_uint8 (n : Z) (uvs : list (Q * Q))
    (colours : list (rgba Z)) (fs : list (nat * nat * nat))
    (buf : list (list (rgba Z))) :
  Forall (valid_face uvs colours) fs -> square n buf -> all_uint8 buf ->
  exists buf',
    rasterize n uvs colours fs buf = inr buf' /\ all_uint8 buf'.
Proof.
  intros Hfs Hsq Hu8.
  destruct (rasterize_run n uvs colours fs Hfs buf Hsq)
    as (buf' & E & Hsq' & Hat).
  exists buf'. split; [exact E|].
  unfold all_uint8 in *. rewrite Forall_lookup in *.
  intros y row Hrow. rewrite Forall_lookup. intros x t Ht.
  assert (Hyx : texel_at buf' (Z.of_nat y) (Z.of_nat x) = Some t).
  { unfold texel_at, item2. rewrite !Nat2Z.id, Hrow. exact Ht. }
  rewrite Hat in Hyx by lia.
  assert (Hold : forall t0, texel_at buf (Z.of_nat y) (Z.of_nat x) = Some t0 ->
                            rgba_all is_uint8 t0).
  { unfold texel_at, item2. rewrite !Nat2Z.id. intros t0 Ht0.
    destruct (buf !! y) as [row0|] eqn:Hrow0; [|discriminate].
    cbn in Ht0. specialize (Hu8 y row0 Hrow0).
    rewrite Forall_lookup in Hu8. exact (Hu8 x t0 Ht0). }
  revert Hyx Hold. generalize (texel_at buf (Z.of_nat y) (Z.of_nat x)).
  clear -fs. induction fs as [|f fs IH]; intros old Hyx Hold.
  - apply Hold, Hyx.
  - cbn [foldl] in Hyx. apply IH in Hyx; [exact Hyx|].
    intros t0 Ht0.
    destruct (face_write n uvs colours f (Z.of_nat y) (Z.of_nat x)) as [t1|]
      eqn:Hw; cbn [overlay] in Ht0.
    + injection Ht0 as <-. eapply face_write_uint8, Hw.
    + apply Hold, Ht0.
Qed.

Lemma rasterize_keeps_uint8_witness :
  exists buf',
    rasterize 2 [(0, 0); (1, 0); (0, 1)]
      [rgb8 1000 (-7) 3 255; rgb8 1000 (-7) 3 255; rgb8 1000 (-7) 3 255]
      [(0, 1, 2)%nat] (zeros 2) = inr buf'
    /\ all_uint8 buf'.
Proof.
  apply rasterize_keeps_uint8.
  - repeat constructor; cbn; lia.
  - split; [reflexivity|]. repeat constructor.
  - repeat constructor; cbn; lia.
Defined.

End TexelRange.

Section NoHoleLeft.
Import Py Conv.
Context `{Collaborators}.

(** After the gap filler the hole mask of the buffer is zero everywhere:
    a later gap filling, such as that of the next [convert] on the same
    converter, finds nothing to fill. *)
Theorem inpaint_leaves_no_hole (st : State) (y x : nat) (t : rgba Z) :
  item2 (texture_buffer (self (snd (_inpaint_texture st)))) y x = Some t ->
  item2 (hole_mask (texture_buffer (self (snd (_inpaint_texture st))))) y x
  = Some 0%Z.
Proof.
  intros Ht. unfold hole_mask. rewrite item2_fmap, Ht. cbn.
  rewrite (inpaint_texture_alpha st (snd (_inpaint_texture st)) y x t);
    [reflexivity| |exact Ht].
  rewrite inpaint_texture_run. reflexivity.
Qed.

End NoHoleLeft.

Section NoHoleLeftExample.
Import Py Conv Demo.

Lemma inpaint_leaves_no_hole_witness :
  let st := fresh (set_texture_buffer small
                     [[rgb8 9 8 7 255; rgb8 0 0 0 0];
                      [rgb8 0 0 0 0; rgb8 1 2 3 200]]) in
  item2 (hole_mask (texture_buffer (self (snd (_inpaint_texture st))))) 0 1
  = Some 0%Z.
Proof.
  intros st. apply (inpaint_leaves_no_hole st 0 1 (rgb8 1 2 3 255)).
  reflexivity.
Defined.

End NoHoleLeftExample.

Section CollapsedFace.
Import Utils Py Conv RasterSpec.

(** Three coincident float64 vertices: every sign is zero. *)
Lemma float64_coincident (p v : point) :
  Float64.is_point_in_triangle p v v v = true.
Proof.
  assert (E : Float64.sign p v v = 0).
  { unfold Float64.sign.
    assert (Z1 : Float64.sub v.1 v.1 = 0)
      by (unfold Float64.sub, Float64.round; apply round_zero; ring).
    assert (Z2 : Float64.sub v.2 v.2 = 0)
      by (unfold Float64.sub, Float64.round; apply round_zero; ring).
    rewrite Z1, Z2.
    assert (M1 : forall t, Float64.mul t 0 = 0)
      by (intros t; unfold Float64.mul, Float64.round; apply round_zero;
          ring).
    assert (M2 : forall t, Float64.mul 0 t = 0)
      by (intros t; unfold Float64.mul, Float64.round; apply round_zero;
          ring).
    rewrite M1, M2. reflexivity. }
  unfold Float64.is_point_in_triangle. rewrite E. reflexivity.
Qed.

(** A third of a [uint8] value, as a float64, truncates to the integer
    quotient. *)
Lemma third_uint8 (s : Z) :
  is_uint8 s -> Qfloor (clip (Float64.div (inject_Z s) 3) 0 255) = (s / 3)%Z.
Proof.
  intros Hs.
  assert (Hall : forallb (fun s => (Qfloor (clip (Float64.div (inject_Z s) 3)
                                              0 255) =? s / 3)%Z)
                   (seqZ 0 256) = true) by (vm_compute; reflexivity).
  rewrite forallb_forall in Hall.
  apply Z.eqb_eq, Hall, list_elem_of_In, elem_of_seqZ. unfold is_uint8 in Hs. lia.
Qed.

Lemma add3_uint8 (c0 c1 c2 : rgba Z) : rgba_all is_uint8 (add3 c0 c1 c2).
Proof.
  unfold rgba_all, add3, rgba_zip, is_uint8, wrap8;
    cbn [chR chG chB chA dt_add uint8_dtype].
  repeat split; apply Z.mod_pos_bound; lia.
Qed.

(** What a triangle collapsed to the texel [a] writes. *)
Lemma collapsed_triangle_texel (n : Z) (a : Z * Z) (c0 c1 c2 : rgba Z)
    (y x : Z) :
  (0 <= a.1 < n)%Z -> (0 <= a.2 < n)%Z ->
  triangle_texel a a a c0 c1 c2 (box n a a a) y x
  = if ((y =? a.2) && (x =? a.1))%Z
    then Some (rgba_map (fun s => (s / 3)%Z) (add3 c0 c1 c2))
    else None.
Proof.
  intros Hx Hy. unfold triangle_texel.
  assert (Hbox : in_box (box n a a a) y x = ((y =? a.2) && (x =? a.1))%Z).
  { unfold in_box, box. cbn.
    rewrite !Z.min_id, !Z.max_id.
    rewrite (Z.max_l a.1 0), (Z.min_l a.1 (n - 1)), (Z.max_l a.2 0),
      (Z.min_l a.2 (n - 1)) by lia.
    destruct (Z.eqb_spec y a.2), (Z.eqb_spec x a.1); cbn; lia. }
  rewrite Hbox. destruct ((y =? a.2) && (x =? a.1))%Z; [|reflexivity].
  unfold centre_texel. rewrite float64_coincident.
  unfold Float64.barycentric_interpolate, Float64.dot_int. cbn [fst snd].
  rewrite !Z.sub_diag. cbn [Z.mul Z.add Z.sub Z.opp].
  change (Qltb (Qabs (inject_Z 0)) Float64.eps) with true.
  cbn [fmap option_fmap option_map]. f_equal.
  pose proof (add3_uint8 c0 c1 c2) as (HR & HG & HB & HA).
  unfold rgba_map. cbn [chR chG chB chA].
  rewrite !third_uint8 by assumption. reflexivity.
Qed.

(** A face whose three UVs map to the same texel [a] of the buffer.  The
    coverage test accepts the centre of [a] (every sign is zero), the
    interpolation takes its degenerate branch, and the face loop writes
    texel [a] and no other: each channel becomes the [uint8] sum of the
    three vertex channels, which wraps around at 256, divided by 3 and
    truncated. *)
Theorem collapsed_face_texel (n : Z) (uvs : list (Q * Q))
    (colours : list (rgba Z)) (i0 i1 i2 : nat) (a : Z * Z)
    (c0 c1 c2 : rgba Z) (buf : list (list (rgba Z))) :
  to_buffer_coords n <$> uvs !! i0 = Some a ->
  to_buffer_coords n <$> uvs !! i1 = Some a ->
  to_buffer_coords n <$> uvs !! i2 = Some a ->
  colours !! i0 = Some c0 -> colours !! i1 = Some c1 ->
  colours !! i2 = Some c2 ->
  (0 <= a.1 < n)%Z -> (0 <= a.2 < n)%Z -> square n buf ->
  exists buf',
    face_body n uvs colours (i0, i1, i2) buf = inr buf'
    /\ square n buf'
    /\ texel_at buf' a.2 a.1
       = Some (rgba_map (fun s => (s / 3)%Z)
                 (rgba_zip (fun s t => ((s + t) mod 256)%Z)
                    (rgba_zip (fun s t => ((s + t) mod 256)%Z) c0 c1) c2))
    /\ forall y x, (0 <= y)%Z -> (0 <= x)%Z -> (y, x) <> (a.2, a.1) ->
         texel_at buf' y x = texel_at buf y x.
Proof.
  intros U0 U1 U2 K0 K1 K2 Hx Hy Hsq.
  destruct (uvs !! i0) as [uv0|] eqn:L0; [|discriminate].
  destruct (uvs !! i1) as [uv1|] eqn:L1; [|discriminate].
  destruct (uvs !! i2) as [uv2|] eqn:L2; [|discriminate].
  injection U0 as U0. injection U1 as U1. injection U2 as U2.
  destruct (face_body_run n uvs colours (i0, i1, i2) buf) as
    (buf' & E & Hsq' & Hat); [|exact Hsq|].
  { split; repeat split; eapply lookup_lt_Some; eassumption. }
  assert (Hw : forall y x,
    face_write n uvs colours (i0, i1, i2) y x
    = if ((y =? a.2) && (x =? a.1))%Z
      then Some (rgba_map (fun s => (s / 3)%Z) (add3 c0 c1 c2))
      else None).
  { intros y x. unfold face_write. rewrite L0, L1, L2, K0, K1, K2.
    rewrite U0, U1, U2. apply collapsed_triangle_texel; assumption. }
  exists buf'. split; [exact E|]. split; [exact Hsq'|]. split.
  - rewrite Hat, Hw by lia. rewrite !Z.eqb_refl. reflexivity.
  - intros y x Hy' Hx' Hne. rewrite Hat, Hw by assumption.
    destruct (Z.eqb_spec y a.2), (Z.eqb_spec x a.1); cbn [andb overlay];
      try reflexivity.
    exfalso. apply Hne. congruence.
Qed.

(** Three vertices of colour (10, 20, 30, 255) on one texel of a 3 x 3
    buffer: the alpha sum 765 wraps to 253 and the texel gets alpha 84. *)
Lemma collapsed_face_texel_witness :
  exists buf',
    face_body 3 [(1 # 2, 1); (1 # 2, 1); (1 # 2, 1)]
      [rgb8 10 20 30 255; rgb8 10 20 30 255; rgb8 10 20 30 255]
      (0, 1, 2)%nat (zeros 3) = inr buf'
    /\ texel_at buf' 2 1 = Some (rgb8 10 20 30 84)
    /\ texel_at buf' 1 1 = Some (rgb8 0 0 0 0).
Proof.
  destruct (collapsed_face_texel 3 [(1 # 2, 1); (1 # 2, 1); (1 # 2, 1)]
      [rgb8 10 20 30 255; rgb8 10 20 30 255; rgb8 10 20 30 255]
      0 1 2 (1, 2)%Z (rgb8 10 20 30 255) (rgb8 10 20 30 255)
      (rgb8 10 20 30 255) (zeros 3))
    as (buf' & E & _ & Ha & Hother).
  - vm_compute. reflexivity.
  - vm_compute. reflexivity.
  - vm_compute. reflexivity.
  - reflexivity.
  - reflexivity.
  - reflexivity.
  - cbn. lia.
  - cbn. lia.
  - split; [reflexivity|]. repeat constructor.
  - exists buf'. split; [exact E|]. split; [exact Ha|].
    rewrite (Hother 1%Z 1%Z) by (cbn; lia || discriminate). reflexivity.
Defined.

End CollapsedFace.

Section Idempotence.
Import Utils Py Conv RasterSpec.

(** Two square buffers with the same texels are the same buffer. *)
Lemma square_ext (n : Z) (b1 b2 : list (list (rgba Z))) :
  square n b1 -> square n b2 ->
  (forall y x, (0 <= y < n)%Z -> (0 <= x < n)%Z ->
               texel_at b1 y x = texel_at b2 y x) ->
  b1 = b2.
Proof.
  intros Hs1 Hs2 Hat. pose proof Hs1 as [L1 _]. pose proof Hs2 as [L2 _].
  apply list_eq. intros i.
  destruct (b1 !! i) as [r1|] eqn:E1.
  - pose proof (lookup_lt_Some _ _ _ E1) as Hi.
    destruct (b2 !! i) as [r2|] eqn:E2.
    2:{ apply lookup_ge_None in E2. lia. }
    f_equal. apply list_eq. intros j.
    pose proof (square_lookup _ _ _ _ Hs1 E1) as R1.
    pose proof (square_lookup _ _ _ _ Hs2 E2) as R2.
    destruct (decide (j < length r1)%nat) as [Hj|Hj].
    + specialize (Hat (Z.of_nat i) (Z.of_nat j) ltac:(lia) ltac:(lia)).
      unfold texel_at, item2 in Hat. rewrite !Nat2Z.id, E1, E2 in Hat.
      exact Hat.
    + rewrite (proj2 (lookup_ge_None r1 j)) by lia.
      rewrite (proj2 (lookup_ge_None r2 j)) by lia. reflexivity.
  - apply lookup_ge_None in E1. symmetry. apply lookup_ge_None. lia.
Qed.

Lemma fold_overlay_last {A} (w : A -> option (rgba Z)) (fs : list A)
    (old : option (rgba Z)) :
  foldl (fun acc f => overlay (w f) acc) old fs
  = overlay (foldl (fun acc f => overlay (w f) acc) None fs) old.
Proof.
  revert old. induction fs as [|f fs IH]; intros old; [reflexivity|].
  cbn [foldl]. rewrite IH. rewrite (IH (overlay (w f) None)).
  destruct (foldl _ None fs), (w f); reflexivity.
Qed.

(** Baking the same faces again over their own rasterisation changes
    nothing: what a face writes depends on the texel, not on what the
    buffer holds. *)
Theorem rasterize_idempotent (n : Z) (uvs : list (Q * Q))
    (colours : list (rgba Z)) (fs : list (nat * nat * nat))
    (buf b1 : list (list (rgba Z))) :
  Forall (valid_face uvs colours) fs -> square n buf ->
  rasterize n uvs colours fs buf = inr b1 ->
  rasterize n uvs colours fs b1 = inr b1.
Proof.
  intros Hfs Hsq E1.
  destruct (rasterize_run n uvs colours fs Hfs buf Hsq)
    as (b1' & E1' & Hsq1 & H1).
  rewrite E1 in E1'. injection E1' as <-.
  destruct (rasterize_run n uvs colours fs Hfs b1 Hsq1)
    as (b2 & E2 & Hsq2 & H2).
  rewrite E2. f_equal. apply (square_ext n); [assumption..|].
  intros y x Hy Hx. rewrite H2, H1 by lia.
  rewrite fold_overlay_last.
  rewrite (fold_overlay_last _ fs (texel_at buf y x)).
  destruct (foldl _ None fs); reflexivity.
Qed.

Lemma rasterize_idempotent_witness :
  rasterize 2 [(0, 0); (1, 0); (0, 1)]
    [rgb8 1 2 3 255; rgb8 1 2 3 255; rgb8 1 2 3 255] [(0, 1, 2)%nat]
    [[rgb8 1 2 3 255; rgb8 0 0 0 0]; [rgb8 0 0 0 0; rgb8 0 0 0 0]]
  = inr [[rgb8 1 2 3 255; rgb8 0 0 0 0]; [rgb8 0 0 0 0; rgb8 0 0 0 0]].
Proof.
  apply (rasterize_idempotent 2 _ _ _ (zeros 2)).
  - repeat constructor; cbn; lia.
  - split; [reflexivity|]. repeat constructor.
  - vm_compute. reflexivity.
Defined.

End Idempotence.

Section ConvertExamples.
Import Py Conv Demo.

Lemma convert_without_colours_witness :
  convert "plain.obj" (Some "scene.GLB") (fresh small)
  = (inr None,
     add_warning (fresh small)
       (Warning UserWarning
          "Input mesh must be an obj file with vertex colors.")).
Proof.
  apply (convert_without_colours (fresh small) "plain.obj"
           (Some "scene.GLB")
           {| visual := Some {| vertex_colors := None |};
              vertices := []; faces := [] |});
    reflexivity.
Defined.

Lemma convert_completed_witness :
  exists e,
    exported (snd (convert "red.obj" None (fresh small3))) = [e]
    /\ ex_path e = "output.glb"
    /\ ex_texture e
       = texture_buffer (self (snd (convert "red.obj" None (fresh small3)))).
Proof.
  destruct (convert_completed "red.obj" None (fresh small3)
              (snd (convert "red.obj" None (fresh small3))) "output.glb")
    as (p & mesh & e & _ & _ & _ & _ & _ & _ & He & Hp & _ & _ & Ht & _).
  - vm_compute. reflexivity.
  - exists e. split; [exact He|]. split; [exact Hp|]. exact Ht.
Defined.

Lemma convert_leaves_buffer_witness :
  item2 (texture_buffer (self (snd (convert "red.obj" None (fresh small3)))))
    0 0 = Some (rgb8 255 0 0 255)
  /\ chA (rgb8 255 0 0 255) = 255%Z.
Proof.
  assert (E : convert "red.obj" None (fresh small3)
              = (inr (Some "output.glb"),
                 snd (convert "red.obj" None (fresh small3))))
    by (vm_compute; reflexivity).
  assert (Ht : item2 (texture_buffer
                        (self (snd (convert "red.obj" None (fresh small3)))))
                 0 0 = Some (rgb8 255 0 0 255))
    by (vm_compute; reflexivity).
  split; [exact Ht|].
  exact (convert_leaves_buffer _ _ _ _ _ E 0%nat 0%nat _ Ht).
Defined.

End ConvertExamples.

Section DegenerateBranch.
Import Utils.

(** No input makes [barycentric_interpolate] divide by zero: the only
    divisions by [denom] are behind the test [abs(denom) < 1e-8], so a
    finite colour is returned for every triangle, point and colours. *)
Theorem barycentric_interpolate_no_zero_division `{Dtype C}
    (v0 v1 v2 : point) (c0 c1 c2 : rgba C) (p : point) :
  exists r, barycentric_interpolate v0 v1 v2 c0 c1 c2 p = Some r.
Proof. apply barycentric_interpolate_finite. Qed.

Lemma barycentric_degenerate_float64_witness :
  exists r,
    barycentric_interpolate (C := Q) (0, 0) (1, 1) (2, 2)
      (RGBA 300 0 (1 # 2) 255) (RGBA 300 30 (1 # 2) 255)
      (RGBA 300 60 (1 # 2) 255) (5, 7) = Some r
    /\ rgba_eq r
         (Spec.average (C := Q) (RGBA 300 0 (1 # 2) 255)
            (RGBA 300 30 (1 # 2) 255) (RGBA 300 60 (1 # 2) 255)).
Proof.
  apply barycentric_degenerate_float64. reflexivity.
Defined.

Lemma barycentric_degenerate_uint8_small_witness :
  exists r,
    barycentric_interpolate (0, 0) (1, 1) (2, 2)
      (rgb8 10 0 90 85) (rgb8 20 0 90 85) (rgb8 30 3 75 85) (5, 7) = Some r
    /\ rgba_eq r
         (Spec.average (rgb8 10 0 90 85) (rgb8 20 0 90 85) (rgb8 30 3 75 85)).
Proof.
  apply barycentric_degenerate_uint8_small;
    [reflexivity | ..]; repeat split; cbn; lia.
Defined.

End DegenerateBranch.
